(** * The clustering core of xapian-core/cluster/cluster.cc

    A shallow embedding of the point, centroid, cluster and cluster-set
    classes of [cluster.cc] (declarations in [xapian/cluster.h]) together
    with the properties the specification states about them.

    Conventions of the embedding.
    - [std::tr1::unordered_map<string, double>] is a [gmap string double];
      iteration over it follows [map_fold], whose order is as unspecified
      as the hash order of the C++ container.
    - [std::vector<T>] is a [list T]; [push_back] appends at the end.
    - A C++ [double] is a value of [double] below: a real number, or one
      of the IEEE-754 special values.  Rounding and overflow of finite
      results are not modelled, the special values are.
    - [doccount], [termcount], [clusterid] and vector sizes are natural
      numbers, an [int] is an integer: containers are taken to be small
      enough for the conversions between these types to be exact.
    - A method [T::m(args)] is [T.m args] in the module of its class; one
      that mutates [*this] is a function [T -> T], one that can throw
      returns a [result]. *)

From Stdlib Require Import Reals Lra ZArith.
From stdpp Require Import gmap strings list fin_maps.

(** ** Doubles *)

Inductive double : Type :=
| DFin (r : R)        (* a finite value *)
| DInf (neg : bool)   (* +infinity ([false]) or -infinity ([true]) *)
| DNaN.

Module Double.

Definition zero : double := DFin 0.
Definition one : double := DFin 1.

(** Conversions from the integer types (exact). *)
Definition of_nat (n : nat) : double := DFin (INR n).
Definition of_int (z : Z) : double := DFin (IZR z).

Definition is_finite (x : double) : bool :=
  match x with DFin _ => true | _ => false end.

(** Sign test on a real, as a boolean. *)
Definition Rneg (r : R) : bool := if Rlt_dec r 0 then true else false.
Definition Rzero (r : R) : bool := if Req_dec_T r 0 then true else false.

(** [x == 0.0] *)
Definition is_zero (x : double) : bool :=
  match x with DFin r => Rzero r | _ => false end.

(** [x + y] *)
Definition add (x y : double) : double :=
  match x, y with
  | DNaN, _ | _, DNaN => DNaN
  | DFin a, DFin b => DFin (a + b)
  | DInf s, DFin _ | DFin _, DInf s => DInf s
  | DInf s, DInf s' => if Bool.eqb s s' then DInf s else DNaN
  end.

(** [x * y] *)
Definition mul (x y : double) : double :=
  match x, y with
  | DNaN, _ | _, DNaN => DNaN
  | DFin a, DFin b => DFin (a * b)
  | DInf s, DFin r | DFin r, DInf s =>
      if Rzero r then DNaN else DInf (xorb s (Rneg r))
  | DInf s, DInf s' => DInf (xorb s s')
  end.

(** [x / y]; a zero divisor is +0.0, which is what the conversion of an
    integer zero gives. *)
Definition div (x y : double) : double :=
  match x, y with
  | DNaN, _ | _, DNaN => DNaN
  | DFin a, DFin b =>
      if Rzero b then (if Rzero a then DNaN else DInf (Rneg a))
      else DFin (a / b)
  | DFin _, DInf _ => DFin 0
  | DInf s, DFin b => DInf (xorb s (Rneg b))
  | DInf _, DInf _ => DNaN
  end.

(** [log(x)] of <cmath>: the natural logarithm. *)
Definition log (x : double) : double :=
  match x with
  | DNaN => DNaN
  | DInf false => DInf false
  | DInf true => DNaN
  | DFin r =>
      if Rzero r then DInf true
      else if Rneg r then DNaN
      else DFin (ln r)
  end.

(** [sqrt(x)] of <cmath>. *)
Definition sqrt (x : double) : double :=
  match x with
  | DNaN => DNaN
  | DInf false => DInf false
  | DInf true => DNaN
  | DFin r => if Rneg r then DNaN else DFin (R_sqrt.sqrt r)
  end.

End Double.

Notation "x +d y" := (Double.add x y) (at level 50, left associativity).
Notation "x *d y" := (Double.mul x y) (at level 40, left associativity).
Notation "x /d y" := (Double.div x y) (at level 40, left associativity).

(** ** Errors *)

Inductive Error : Type :=
| RangeError (msg : string)
| UnimplementedError (msg : string)
| InvalidArgumentError (msg : string)
| AssertionError.

Inductive result (A : Type) : Type :=
| Ok (a : A)
| Throw (e : Error).
Arguments Ok {A} a.
Arguments Throw {A} e.

(** ** Data *)

(** An entry of a termlist: [struct Wdf { string term; doccount wdf; }]. *)
Record Wdf := mkWdf { term : string; wdf : nat }.

(** [class PointType]: the weight map, the cached squared magnitude and
    the termlist in insertion order. *)
Record PointType := mkPointType {
  values : gmap string double;
  magnitude : double;
  termlist : list Wdf
}.

(** A [Centroid] is a [PointType] with no state of its own. *)
Abbreviation Centroid := PointType (only parsing).

(** A [Document] is a handle of the enclosing library; all this file
    uses of it is its identifier and the [(term, wdf)] entries its term
    iterator yields, in the iterator's order. *)
Record Document := mkDocument {
  docid : nat;
  doc_terms : list (string * nat)
}.

(** An [MSet] is the ranked list of its documents. *)
Abbreviation MSet := (list Document) (only parsing).

(** [class MSetDocumentSource] *)
Record MSetDocumentSource := mkSource {
  mset : MSet;
  maxitems : nat;
  index : nat
}.

(** [class TermListGroup] *)
Record TermListGroup := mkTLG {
  termfreq : gmap string nat;
  docs_num : nat
}.

(** [class Point]: a [PointType] with the document it represents. *)
Record Point := mkPoint {
  point_base : PointType;
  doc : Document
}.

(** [class DocumentSet] *)
Record DocumentSet := mkDocumentSet { docs : list Document }.

(** [class Cluster] *)
Record Cluster := mkCluster {
  centroid : Centroid;
  cluster_docs : list Point
}.

(** [class ClusterSet] *)
Record ClusterSet := mkClusterSet { clusters : list Cluster }.

(** ** PointType *)

Module PointType.

(** [PointType() { magnitude = 0; }] *)
Definition new : PointType :=
  {| values := ∅; magnitude := Double.zero; termlist := [] |}.

(** [PointType::contains] *)
Definition contains (p : PointType) (t : string) : bool :=
  match values p !! t with
  | None => false
  | Some _ => true
  end.

(** [PointType::get_value] *)
Definition get_value (p : PointType) (t : string) : double :=
  match values p !! t with
  | None => Double.zero
  | Some w => w
  end.

(** [PointType::get_magnitude] *)
Definition get_magnitude (p : PointType) : double := magnitude p.

(** [PointType::add_value] *)
Definition add_value (t : string) (value : double) (p : PointType)
  : PointType :=
  match values p !! t with
  | Some w =>
      {| values := <[t := w +d value]> (values p);
         magnitude := magnitude p;
         termlist := termlist p |}
  | None =>
      {| values := <[t := value]> (values p);
         magnitude := magnitude p;
         termlist := termlist p ++ [mkWdf t 1] |}
  end.

(** [PointType::set_value] *)
Definition set_value (t : string) (value : double) (p : PointType)
  : PointType :=
  {| values := <[t := value]> (values p);
     magnitude := magnitude p;
     termlist := termlist p |}.

(** [PointType::termlist_size] *)
Definition termlist_size (p : PointType) : nat := length (termlist p).

(** The terms a [TermIterator] from [termlist_begin()] to
    [termlist_end()] visits: those of the termlist, in order. *)
Definition terms (p : PointType) : list string := term <$> termlist p.

(** The sum of [get_value(t)^2] over the stored terms [t], in the
    iteration order of the weight map. *)
Definition sum_squares (p : PointType) : double :=
  foldr (fun t m => m +d get_value p t *d get_value p t) Double.zero
        (map_to_list (values p)).*1.

(** A call of [set_value] or of [add_value]. *)
Inductive op : Type :=
| SetValue (t : string) (w : double)
| AddValue (t : string) (w : double).

Definition apply (p : PointType) (o : op) : PointType :=
  match o with
  | SetValue t w => set_value t w p
  | AddValue t w => add_value t w p
  end.

(** A finite sequence of [set_value] and [add_value] calls. *)
Definition run (ops : list op) (p : PointType) : PointType :=
  foldl apply p ops.

End PointType.

(** ** MSetDocumentSource and TermListGroup *)

Module Document.
Definition new : Document := {| docid := 0; doc_terms := [] |}.
End Document.

Module MSetDocumentSource.

(** [MSetDocumentSource(const MSet &)] *)
Definition new (mset_ : MSet) : MSetDocumentSource :=
  {| mset := mset_; maxitems := length mset_; index := 0 |}.

(** [MSetDocumentSource(const MSet &, doccount)] *)
Definition new_max (mset_ : MSet) (maxitems_ : nat) : MSetDocumentSource :=
  {| mset := mset_;
     maxitems := if length mset_ <? maxitems_ then length mset_
                 else maxitems_;
     index := 0 |}.

(** [MSetDocumentSource::at_end] *)
Definition at_end (s : MSetDocumentSource) : bool :=
  maxitems s <=? index s.

(** [MSetDocumentSource::next_document]: [mset[index++].get_document()].
    Reading past the end of the MSet is outside the contract of [MSet];
    the model answers [None] there. *)
Definition next_document (s : MSetDocumentSource)
  : option Document * MSetDocumentSource :=
  (mset s !! index s,
   {| mset := mset s; maxitems := maxitems s; index := S (index s) |}).

(** [MSetDocumentSource::size] *)
Definition size (s : MSetDocumentSource) : nat := length (mset s).

End MSetDocumentSource.

Module TermListGroup.

Definition new : TermListGroup := {| termfreq := ∅; docs_num := 0 |}.

(** The body of the loop of [add_document], at the term [t]. *)
Definition count_term (g : TermListGroup) (t : string) : TermListGroup :=
  match termfreq g !! t with
  | None => {| termfreq := <[t := 1]> (termfreq g); docs_num := docs_num g |}
  | Some n =>
      {| termfreq := <[t := n + 1]> (termfreq g); docs_num := docs_num g |}
  end.

(** [TermListGroup::add_document] *)
Definition add_document (document : Document) (tlg : TermListGroup)
  : TermListGroup :=
  foldl count_term tlg (doc_terms document).*1.

(** The loop [while (!docs.at_end()) add_document(docs.next_document());]
    run for at most [fuel] iterations. *)
Fixpoint add_documents_loop (fuel : nat) (docs : MSetDocumentSource)
    (tlg : TermListGroup) : MSetDocumentSource * TermListGroup :=
  match fuel with
  | O => (docs, tlg)
  | S fuel' =>
      if MSetDocumentSource.at_end docs then (docs, tlg)
      else
        let '(d, docs') := MSetDocumentSource.next_document docs in
        match d with
        | Some d => add_documents_loop fuel' docs' (add_document d tlg)
        | None => (docs', tlg)
        end
  end.

(** [TermListGroup::add_documents]; the loop ends after
    [maxitems - index] iterations. *)
Definition add_documents (docs : MSetDocumentSource) (tlg : TermListGroup)
  : TermListGroup :=
  let '(docs', tlg') :=
    add_documents_loop (maxitems docs - index docs) docs tlg in
  {| termfreq := termfreq tlg'; docs_num := MSetDocumentSource.size docs' |}.

(** [TermListGroup::get_doccount] *)
Definition get_doccount (tlg : TermListGroup) : nat := docs_num tlg.

(** [TermListGroup::get_termfreq]: [return termfreq[tname];].  The
    subscript operator inserts the key with count 0 when it is absent,
    so the call also returns the updated group. *)
Definition get_termfreq (tname : string) (tlg : TermListGroup)
  : nat * TermListGroup :=
  match termfreq tlg !! tname with
  | Some n => (n, tlg)
  | None => (0, {| termfreq := <[tname := 0]> (termfreq tlg);
                   docs_num := docs_num tlg |})
  end.

(** The count [get_termfreq] answers for [tname]. *)
Definition freq (tlg : TermListGroup) (tname : string) : nat :=
  (get_termfreq tname tlg).1.

End TermListGroup.

(** ** Point *)

Module Point.

Definition new : Point :=
  {| point_base := PointType.new; doc := Document.new |}.

(** [Point::get_document] *)
Definition get_document (p : Point) : Document := doc p.

(** The weight [Point::initialize] computes for an entry with
    within-document frequency [wdf] (already at least 1) of a term of
    document frequency [df], among [size] documents:
    [tf = 1 + log(wdf); idf = log(size/termfreq); wt = tf*idf]. *)
Definition weight (size wdf df : nat) : double :=
  let tf := Double.one +d Double.log (Double.of_nat wdf) in
  let termfreq := Double.of_nat df in
  let idf := Double.log (Double.of_nat size /d termfreq) in
  tf *d idf.

(** [if (wdf < 1) wdf = 1;] *)
Definition clamp_wdf (wdf : nat) : nat := if wdf <? 1 then 1 else wdf.

(** One iteration of the loop of [Point::initialize], at the term
    iterator's entry [e = (term, wdf)]. *)
Definition initialize_step (size : nat) (st : PointType * TermListGroup)
    (e : string * nat) : PointType * TermListGroup :=
  let '(p, tlg) := st in
  let wdf := clamp_wdf e.2 in
  let term_wdf := mkWdf e.1 wdf in
  let '(df, tlg') := TermListGroup.get_termfreq e.1 tlg in
  let wt := weight size wdf df in
  ({| values := <[e.1 := wt]> (values p);
      magnitude := magnitude p +d wt *d wt;
      termlist := termlist p ++ [term_wdf] |}, tlg').

(** [Point::initialize] *)
Definition initialize (tlg : TermListGroup) (doc_ : Document) (p : Point)
  : Point * TermListGroup :=
  let size := TermListGroup.get_doccount tlg in
  let '(b, tlg') :=
    foldl (initialize_step size) (point_base p, tlg) (doc_terms doc_) in
  ({| point_base := b; doc := doc_ |}, tlg').

End Point.

(** ** Centroid *)

Module Centroid.

(** [Centroid()] *)
Definition new : Centroid := PointType.new.

(** One iteration of the loop of [Centroid::set_to_point]. *)
Definition set_to_point_step (p : Point) (c : Centroid) (t : string)
  : Centroid :=
  let v := PointType.get_value (point_base p) t in
  {| values := <[t := v]> (values c);
     magnitude := magnitude c +d v *d v;
     termlist := termlist c ++ [mkWdf t 1] |}.

(** [Centroid::set_to_point] *)
Definition set_to_point (p : Point) (c : Centroid) : Centroid :=
  foldl (set_to_point_step p)
        {| values := values c; magnitude := Double.zero;
           termlist := termlist c |}
        (PointType.terms (point_base p)).

(** [Centroid::divide(int num)] *)
Definition divide (num : Z) (c : Centroid) : Centroid :=
  {| values := (fun w => w /d Double.of_int num) <$> values c;
     magnitude := magnitude c;
     termlist := termlist c |}.

(** [Centroid::clear] *)
Definition clear (c : Centroid) : Centroid :=
  {| values := ∅; magnitude := magnitude c; termlist := [] |}.

(** [Centroid::recalc_magnitude] *)
Definition recalc_magnitude (c : Centroid) : Centroid :=
  {| values := values c;
     magnitude := map_fold (fun _ w m => m +d w *d w) Double.zero (values c);
     termlist := termlist c |}.

End Centroid.

(** ** PointTermIterator *)

Module PointTermIterator.

(** The iterator holds two positions in the termlist it was built from,
    [i] and [end]; positions are indices into that vector. *)
Record t := mk {
  vec : list Wdf;
  i : nat;
  end_ : nat;
  size : nat;
  started : bool
}.

(** [PointTermIterator(const std::vector<Wdf> &termlist)] *)
Definition new (termlist : list Wdf) : t :=
  {| vec := termlist; i := 0; end_ := length termlist;
     size := length termlist; started := false |}.

(** [get_approx_size] *)
Definition get_approx_size (it : t) : nat := size it.

(** [get_wdf]: [i->wdf]; dereferencing [end] is undefined, [None] here. *)
Definition get_wdf (it : t) : option nat := wdf <$> vec it !! i it.

(** [get_termname]: [i->term] *)
Definition get_termname (it : t) : option string := term <$> vec it !! i it.

(** [get_termfreq] *)
Definition get_termfreq (it : t) : result nat :=
  Throw (UnimplementedError "PointIterator doesn't support get_termfreq()").

(** [positionlist_count] *)
Definition positionlist_count (it : t) : result nat :=
  Throw (UnimplementedError
           "PointTermIterator doesn't support positionlist_count()").

(** [PointTermIterator::next].  The macro [Assert] comes from omassert.h,
    which is not among the sources, so whether assertions are compiled in
    is a parameter: with [assertions] the failing [Assert(i != end)]
    throws, without them the macro expands to nothing and [++i] steps past
    the end. *)
Definition next_with (assertions : bool) (it : t) : result t :=
  if negb (started it) then
    Ok {| vec := vec it; i := i it; end_ := end_ it; size := size it;
          started := true |}
  else if assertions && (i it =? end_ it) then Throw AssertionError
  else
    Ok {| vec := vec it; i := S (i it); end_ := end_ it; size := size it;
          started := started it |}.

(** [PointTermIterator::next] as built by default, without assertions. *)
Definition next (it : t) : result t := next_with false it.

(** [PointTermIterator::at_end] *)
Definition at_end (it : t) : bool :=
  if negb (started it) then false
  else i it =? end_ it.

(** The position [while (i->term != term) i++;] stops at, scanning the
    entries [l] that start at position [pos]; [None] when the term is
    not there and the scan runs off the vector. *)
Fixpoint scan (l : list Wdf) (pos : nat) (tname : string) : option nat :=
  match l with
  | [] => None
  | w :: l' =>
      if String.eqb (term w) tname then Some pos else scan l' (S pos) tname
  end.

(** [PointTermIterator::skip_to] *)
Definition skip_to (tname : string) (it : t) : option t :=
  match scan (drop (i it) (vec it)) (i it) tname with
  | Some j =>
      Some {| vec := vec it; i := j; end_ := end_ it; size := size it;
              started := started it |}
  | None => None
  end.

(** The calls that can change an iterator. *)
Inductive call : Type :=
| Next
| SkipTo (tname : string).

(** A sequence of calls, all of which return. *)
Fixpoint run (calls : list call) (it : t) : option t :=
  match calls with
  | [] => Some it
  | Next :: calls' =>
      match next it with
      | Ok it' => run calls' it'
      | Throw _ => None
      end
  | SkipTo tname :: calls' =>
      match skip_to tname it with
      | Some it' => run calls' it'
      | None => None
      end
  end.

End PointTermIterator.

(** ** DocumentSet and Cluster *)

Module DocumentSet.

Definition new : DocumentSet := {| docs := [] |}.

(** [DocumentSet::size] *)
Definition size (s : DocumentSet) : nat := length (docs s).

(** [DocumentSet::add_document] *)
Definition add_document (d : Document) (s : DocumentSet) : DocumentSet :=
  {| docs := docs s ++ [d] |}.

(** [DocumentSet::operator[]]; no bounds check in the source. *)
Definition get (s : DocumentSet) (i : nat) : option Document := docs s !! i.

End DocumentSet.

Module Cluster.

(** [Cluster::Cluster()] *)
Definition new : Cluster := {| centroid := Centroid.new; cluster_docs := [] |}.

(** [Cluster::get_centroid] *)
Definition get_centroid (c : Cluster) : Centroid := centroid c.

(** [Cluster::set_centroid] *)
Definition set_centroid (centroid_ : Centroid) (c : Cluster) : Cluster :=
  {| centroid := centroid_; cluster_docs := cluster_docs c |}.

(** [Cluster::get_index]: [cluster_docs[index]], no bounds check. *)
Definition get_index (c : Cluster) (index : nat) : option Point :=
  cluster_docs c !! index.

(** [Cluster::size] *)
Definition size (c : Cluster) : nat := length (cluster_docs c).

(** [Cluster::add_cluster(const Point &)] *)
Definition add_cluster (p : Point) (c : Cluster) : Cluster :=
  {| centroid := centroid c; cluster_docs := cluster_docs c ++ [p] |}.

(** [Cluster::clear] *)
Definition clear (c : Cluster) : Cluster :=
  {| centroid := centroid c; cluster_docs := [] |}.

(** The loop [for (int i=0;i<s;i++)] of [get_documents], with [n]
    iterations left. *)
Fixpoint get_documents_loop (c : Cluster) (n i : nat) (docs : DocumentSet)
  : DocumentSet :=
  match n with
  | O => docs
  | S n' =>
      match get_index c i with
      | Some x =>
          get_documents_loop c n' (S i)
            (DocumentSet.add_document (Point.get_document x) docs)
      | None => docs
      end
  end.

(** [Cluster::get_documents] *)
Definition get_documents (c : Cluster) : DocumentSet :=
  get_documents_loop c (size c) 0 DocumentSet.new.

(** The inner loop of [recalculate]: every term of the point [temp] is
    added to the centroid with the point's weight for it. *)
Definition add_point_terms (cen : Centroid) (temp : Point) : Centroid :=
  foldl (fun cen t =>
           PointType.add_value t (PointType.get_value (point_base temp) t) cen)
        cen (PointType.terms (point_base temp)).

(** [Cluster::recalculate] *)
Definition recalculate (c : Cluster) : Cluster :=
  let cen := Centroid.clear (centroid c) in
  let cen := foldl add_point_terms cen (cluster_docs c) in
  let cen := Centroid.divide (Z.of_nat (size c)) cen in
  let cen := Centroid.recalc_magnitude cen in
  {| centroid := cen; cluster_docs := cluster_docs c |}.

End Cluster.

(** ** ClusterSet *)

Module ClusterSet.

Definition new : ClusterSet := {| clusters := [] |}.

(** [ClusterSet::size] *)
Definition size (cs : ClusterSet) : nat := length (clusters cs).

(** [ClusterSet::cluster_size]; the second component is the set after
    the call.  Past the test [cid] is below the size and [clusters[cid]]
    exists: the last branch is never taken. *)
Definition cluster_size (cid : nat) (cs : ClusterSet)
  : result nat * ClusterSet :=
  let s := length (clusters cs) in
  if s <=? cid then
    (Throw (RangeError "The mentioned clusterid was out of range"), cs)
  else
    match clusters cs !! cid with
    | Some c => (Ok (Cluster.size c), cs)
    | None => (Throw AssertionError, cs)
    end.

(** [ClusterSet::get_cluster]; the second component is the set after
    the call.  As in [cluster_size], the last branch is never taken. *)
Definition get_cluster (cid : nat) (cs : ClusterSet)
  : result Cluster * ClusterSet :=
  let s := length (clusters cs) in
  if s <=? cid then
    (Throw (RangeError "The mentioned clusterid was out of range"), cs)
  else
    match clusters cs !! cid with
    | Some c => (Ok c, cs)
    | None => (Throw AssertionError, cs)
    end.

(** [ClusterSet::add_cluster] *)
Definition add_cluster (c : Cluster) (cs : ClusterSet) : ClusterSet :=
  {| clusters := clusters cs ++ [c] |}.

(** [ClusterSet::operator[]]; no bounds check in the source. *)
Definition get (cs : ClusterSet) (i : nat) : option Cluster :=
  clusters cs !! i.

(** [ClusterSet::add_to_cluster]: [clusters[i].add_cluster(x)].  The
    source does not check [i]; out of range the model changes nothing. *)
Definition add_to_cluster (x : Point) (i : nat) (cs : ClusterSet)
  : ClusterSet :=
  match clusters cs !! i with
  | Some c => {| clusters := <[i := Cluster.add_cluster x c]> (clusters cs) |}
  | None => cs
  end.

(** [ClusterSet::clear_clusters] *)
Definition clear_clusters (cs : ClusterSet) : ClusterSet :=
  {| clusters := Cluster.clear <$> clusters cs |}.

(** [ClusterSet::recalculate_centroids] *)
Definition recalculate_centroids (cs : ClusterSet) : ClusterSet :=
  {| clusters := Cluster.recalculate <$> clusters cs |}.

End ClusterSet.

(** ** CosineDistance *)

Module CosineDistance.

(** Modelled from the spec: the dot product of
    [CosineDistance::similarity] (similarity.cc is missing), which
    iterates the termlist of [s] and looks each term up in [o]; a term
    absent from [o] contributes 0. *)
Definition dot (s o : PointType) : double :=
  foldl (fun acc t =>
           acc +d PointType.get_value s t *d PointType.get_value o t)
        Double.zero (PointType.terms s).

(** Modelled from the spec: [CosineDistance::similarity] is defined in
    similarity.cc, which is missing from the sources.  The specification
    has it compute [(a . b) / (|a| * |b|)], where the dot
    product iterates the smaller of the two termlists, [|a|] and [|b|]
    are [sqrt(get_magnitude())], and the result is 0 when either
    magnitude is 0. *)
Definition similarity (a b : PointType) : double :=
  let denom_a := PointType.get_magnitude a in
  let denom_b := PointType.get_magnitude b in
  if Double.is_zero denom_a || Double.is_zero denom_b then Double.zero
  else
    let inner :=
      if PointType.termlist_size a <=? PointType.termlist_size b
      then dot a b else dot b a in
    inner /d (Double.sqrt denom_a *d Double.sqrt denom_b).

End CosineDistance.

(** ** RoundRobin *)

Module RoundRobin.

(** [class RoundRobin], as declared in cluster.h. *)
Record t := mk { num_of_clusters : nat }.

(** Modelled from the spec: step 3 of the algorithm of
    [RoundRobin::cluster] (round_robin.cc is missing).  The documents
    [docs], the first of which is at position [i] of the MSet, are made
    into points and appended to their clusters. *)
Fixpoint assign (k : nat) (docs : list Document) (i : nat)
    (tlg : TermListGroup) (cset : ClusterSet) : ClusterSet :=
  match docs with
  | [] => cset
  | d :: docs' =>
      let '(p, tlg') := Point.initialize tlg d Point.new in
      assign k docs' (S i) tlg' (ClusterSet.add_to_cluster p (i mod k) cset)
  end.

(** Modelled from the spec: [RoundRobin::cluster] is defined in
    round_robin.cc, which is missing from the sources.  The specification
    gives the algorithm: create [k] empty clusters in the
    output set; build a TermListGroup from the MSet; for each document
    at position [i] in the MSet, construct a Point and append it to
    cluster [i mod k]; compute no centroid.  For [k = 0] or an empty
    MSet it recommends an invalid-argument error. *)
Definition cluster (rr : t) (mset : MSet) : result ClusterSet :=
  let k := num_of_clusters rr in
  if (k =? 0) || (length mset =? 0) then
    Throw (InvalidArgumentError "RoundRobin")
  else
    let cset := Nat.iter k (ClusterSet.add_cluster Cluster.new) ClusterSet.new in
    let tlg :=
      TermListGroup.add_documents (MSetDocumentSource.new mset)
                                  TermListGroup.new in
    Ok (assign k mset 0 tlg cset).

End RoundRobin.

(** ** Vocabulary of the properties *)

(** A result is an out-of-range error. *)
Definition is_RangeError {A} (r : result A) : Prop :=
  match r with
  | Throw (RangeError _) => True
  | _ => False
  end.

(** The invariant of the data model that ties the termlist to the weight
    map: every term with a stored weight occurs exactly once in the
    termlist. *)
Definition keys_listed_once (p : PointType) : Prop :=
  forall t, is_Some (values p !! t) ->
            length (filter (fun t' => t' = t) (PointType.terms p)) = 1.

(** The sum of [p.get_value(t)] over the points [ps], in their order. *)
Definition sum_values (t : string) (ps : list Point) : double :=
  foldl (fun acc p => acc +d PointType.get_value (point_base p) t)
        Double.zero ps.

(** All stored weights and the cached magnitude are finite. *)
Definition all_finite (p : PointType) : Prop :=
  map_Forall (fun _ w => Double.is_finite w = true) (values p)
  /\ Double.is_finite (magnitude p) = true.

(** The weight the loop stores for the entry [e], among [N] documents, with
    the counts of the group [g]. *)
Definition entry_weight (N : nat) (g : TermListGroup) (e : string * nat)
  : double :=
  Point.weight N (Nat.max e.2 1) (TermListGroup.freq g e.1).

(** The documents of the points of a cluster, in order. *)
Definition docs_of (c : Cluster) : list Document := doc <$> cluster_docs c.

(** The state of the set after the documents of [mset] at positions
    below [n] have been assigned to [k] clusters: cluster [j] holds, at
    position [q], the document of MSet index [q * k + j], as far as that
    index is below [n]. *)
Definition assigned (k : nat) (mset : MSet) (n : nat) (cs : ClusterSet)
  : Prop :=
  ClusterSet.size cs = k
  /\ forall j c q,
       clusters cs !! j = Some c ->
       docs_of c !! q
       = if decide (q * k + j < n) then mset !! (q * k + j) else None.

(** ** Sample data *)

(** A centroid whose cached magnitude is 1: the weight 1 was added for
    "a" and the magnitude recomputed. *)
Definition unit_centroid : Centroid :=
  Centroid.recalc_magnitude (PointType.add_value "a" Double.one Centroid.new).

(** A set of two clusters, the first holding one point and a centroid of
    magnitude 1. *)
Definition two_clusters : ClusterSet :=
  ClusterSet.add_cluster Cluster.new
    (ClusterSet.add_cluster
       (Cluster.add_cluster Point.new
          (Cluster.set_centroid unit_centroid Cluster.new))
       ClusterSet.new).

(** A document with the one term "a". *)
Definition doc_a1 : Document := {| docid := 1; doc_terms := [("a", 1)] |}.

(** A document with the one term "a", occurring twice in it, and the
    term frequencies of the MSet that holds just this document. *)
Definition doc_a2 : Document := {| docid := 1; doc_terms := [("a", 2)] |}.

Definition tlg_a2 : TermListGroup :=
  TermListGroup.add_documents (MSetDocumentSource.new [doc_a2])
                              TermListGroup.new.

(** The term frequencies of an MSet holding one document without terms:
    one document, no term seen. *)
Definition tlg_unseen : TermListGroup :=
  TermListGroup.add_documents (MSetDocumentSource.new [Document.new])
                              TermListGroup.new.

(** Six documents; with three clusters they fall two by two. *)
Definition six_docs : MSet :=
  (fun n => {| docid := n; doc_terms := [] |}) <$> seq 0 6.

(** ** Vocabulary of the further properties *)

(** The number of times the term [t] occurs in a list of terms. *)
Definition occurrences (t : string) (l : list string) : nat :=
  length (filter (fun t' => t' = t) l).

(** The terms the term iterator of a document yields, in its order. *)
Definition doc_term_names (d : Document) : list string := (doc_terms d).*1.

(** The number of entries with the term [t] in the documents [ds]. *)
Definition total_occurrences (t : string) (ds : list Document) : nat :=
  foldr (fun d n => occurrences t (doc_term_names d) + n) 0 ds.

(** The number of documents among [ds] that have the term [t]. *)
Definition docs_with_term (t : string) (ds : list Document) : nat :=
  length (filter (fun d => t ∈ doc_term_names d) ds).

(** The termlist names exactly the terms that have a weight, each of
    them once. *)
Definition termlist_lists_keys (p : PointType) : Prop :=
  NoDup (PointType.terms p)
  /\ forall t, t ∈ PointType.terms p <-> PointType.contains p t = true.

(** The term frequencies of an MSet, scanned whole. *)
Definition tlg_of (ms : MSet) : TermListGroup :=
  TermListGroup.add_documents (MSetDocumentSource.new ms) TermListGroup.new.

(** The point made of a document, with the term frequencies [tlg]. *)
Definition point_of (tlg : TermListGroup) (d : Document) : Point :=
  (Point.initialize tlg d Point.new).1.

(** A point with another cached magnitude. *)
Definition with_magnitude (m : double) (p : PointType) : PointType :=
  {| values := values p; magnitude := m; termlist := termlist p |}.

(** [n] calls of [PointTermIterator::next] in a row; the first one that
    throws ends the run. *)
Fixpoint nexts (n : nat) (it : PointTermIterator.t)
  : result PointTermIterator.t :=
  match n with
  | O => Ok it
  | S n' =>
      match PointTermIterator.next it with
      | Ok it' => nexts n' it'
      | Throw e => Throw e
      end
  end.

(** A finite double that is not negative. *)
Definition nonneg_finite (x : double) : Prop :=
  exists r, x = DFin r /\ (0 <= r)%R.

(** Two documents that share the term "a". *)
Definition doc_ab : Document :=
  {| docid := 2; doc_terms := [("a", 1); ("b", 3)] |}.

Definition two_docs : MSet := [doc_a2; doc_ab].

(** A point on which [initialize] was called twice, with the same
    document; the second call sees the term frequencies the first one
    left. *)
Definition point_twice (tlg : TermListGroup) (d : Document) : Point :=
  (Point.initialize (Point.initialize tlg d Point.new).2 d
                    (Point.initialize tlg d Point.new).1).1.

(** The cluster of that one point, for the second of [two_docs]. *)
Definition cluster_twice : Cluster :=
  Cluster.add_cluster (point_twice (tlg_of two_docs) doc_ab) Cluster.new.

(** The cluster of the points of [two_docs]. *)
Definition cluster_two_docs : Cluster :=
  Cluster.add_cluster (point_of (tlg_of two_docs) doc_ab)
    (Cluster.add_cluster (point_of (tlg_of two_docs) doc_a2) Cluster.new).

(** * Properties *)

(** ** Arithmetic of doubles *)

Section DoubleFacts.

Lemma Rzero_0 : Double.Rzero 0 = true.
Proof. unfold Double.Rzero. destruct (Req_dec_T 0 0); [done | lra]. Qed.

Lemma Rzero_ne (r : R) : r <> 0%R -> Double.Rzero r = false.
Proof. intros H. unfold Double.Rzero. by destruct (Req_dec_T r 0). Qed.

Lemma Rneg_pos (r : R) : (0 <= r)%R -> Double.Rneg r = false.
Proof. intros H. unfold Double.Rneg. destruct (Rlt_dec r 0); [lra | done]. Qed.

Lemma add_zero_r (x : double) : x +d Double.zero = x.
Proof. destruct x; simpl; [f_equal; lra | done | done]. Qed.

Lemma add_zero_l (x : double) : Double.zero +d x = x.
Proof. destruct x; simpl; [f_equal; lra | done | done]. Qed.

Lemma DFin_ne (a b : R) : a <> b -> DFin a <> DFin b.
Proof. intros H E. by injection E. Qed.

Lemma log_pos (r : R) : (0 < r)%R -> Double.log (DFin r) = DFin (ln r).
Proof.
  intros H. unfold Double.log.
  rewrite Rzero_ne by lra. by rewrite Rneg_pos by lra.
Qed.

Lemma div_pos (a b : R) : (0 < b)%R -> DFin a /d DFin b = DFin (a / b).
Proof. intros H. unfold Double.div. by rewrite Rzero_ne by lra. Qed.

Lemma div_pos_zero (a : R) : (0 < a)%R -> DFin a /d DFin 0 = DInf false.
Proof.
  intros H. unfold Double.div.
  rewrite Rzero_0, Rzero_ne by lra. by rewrite Rneg_pos by lra.
Qed.

Lemma div_zero_zero : DFin 0 /d DFin 0 = DNaN.
Proof. unfold Double.div. by rewrite !Rzero_0. Qed.

Lemma mul_pos_inf (r : R) (s : bool) :
  (0 < r)%R -> DFin r *d DInf s = DInf s.
Proof.
  intros H. unfold Double.mul.
  rewrite Rzero_ne by lra. rewrite Rneg_pos by lra. by destruct s.
Qed.

End DoubleFacts.

(** ** The cached magnitude of a PointType *)

Section Magnitude.

Implicit Types (p c : PointType) (t : string) (w : double).

Lemma get_value_lookup p t w :
  values p !! t = Some w -> PointType.get_value p t = w.
Proof. intros H. unfold PointType.get_value. by rewrite H. Qed.

Lemma get_value_absent p t :
  values p !! t = None -> PointType.get_value p t = Double.zero.
Proof. intros H. unfold PointType.get_value. by rewrite H. Qed.

Lemma magnitude_set_value t w p :
  magnitude (PointType.set_value t w p) = magnitude p.
Proof. reflexivity. Qed.

Lemma magnitude_add_value t w p :
  magnitude (PointType.add_value t w p) = magnitude p.
Proof. unfold PointType.add_value. by destruct (values p !! t). Qed.

Lemma magnitude_apply p o : magnitude (PointType.apply p o) = magnitude p.
Proof.
  destruct o; [apply magnitude_set_value | apply magnitude_add_value].
Qed.

Lemma magnitude_run ops p : magnitude (PointType.run ops p) = magnitude p.
Proof.
  revert p. induction ops as [|o ops IH]; intros p; [done |].
  change (PointType.run (o :: ops) p)
    with (PointType.run ops (PointType.apply p o)).
  by rewrite IH, magnitude_apply.
Qed.

(** Squares summed along a list of map entries, and along the keys
    alone, agree when every entry is a binding of the map. *)
Lemma foldr_squares p (l : list (string * double)) :
  Forall (fun e => values p !! e.1 = Some e.2) l ->
  foldr (uncurry (fun (_ : string) w m => m +d w *d w)) Double.zero l
  = foldr (fun t m => m +d PointType.get_value p t *d PointType.get_value p t)
          Double.zero l.*1.
Proof.
  induction 1 as [|[t w] l Hx _ IH]; [done |].
  simpl in *. by rewrite IH, (get_value_lookup _ _ _ Hx).
Qed.

Lemma recalc_magnitude_sum c :
  magnitude (Centroid.recalc_magnitude c) = PointType.sum_squares c.
Proof.
  unfold Centroid.recalc_magnitude, PointType.sum_squares. simpl.
  rewrite map_fold_foldr.
  apply foldr_squares, Forall_forall.
  intros [t w] H. by apply elem_of_map_to_list.
Qed.

Lemma sum_squares_recalc c :
  PointType.sum_squares (Centroid.recalc_magnitude c)
  = PointType.sum_squares c.
Proof. reflexivity. Qed.

Lemma sum_squares_singleton t w m :
  PointType.sum_squares {| values := {[t := w]}; magnitude := m;
                           termlist := [] |}
  = Double.zero +d w *d w.
Proof.
  unfold PointType.sum_squares. simpl. rewrite map_to_list_singleton. simpl.
  unfold PointType.get_value. simpl. by rewrite lookup_singleton_eq.
Qed.

End Magnitude.

Lemma add_value_new (t : string) (w : double) :
  PointType.add_value t w PointType.new
  = {| values := {[t := w]}; magnitude := Double.zero;
       termlist := [mkWdf t 1] |}.
Proof.
  unfold PointType.add_value, PointType.new. simpl.
  rewrite lookup_empty. by rewrite insert_empty.
Qed.

Lemma sum_squares_run_new (o : PointType.op) :
  PointType.sum_squares (PointType.run [o] PointType.new)
  = match o with
    | PointType.SetValue _ w | PointType.AddValue _ w => Double.zero +d w *d w
    end.
Proof.
  destruct o as [t w | t w]; unfold PointType.run; simpl.
  - unfold PointType.set_value, PointType.new. simpl. rewrite insert_empty.
    apply sum_squares_singleton.
  - rewrite add_value_new. unfold PointType.sum_squares. simpl.
    rewrite map_to_list_singleton. simpl.
    unfold PointType.get_value. simpl. by rewrite lookup_singleton_eq.
Qed.

(** C1, as stated, fails: [add_value] and [set_value] store the weight
    and leave the cached magnitude alone.  On a new PointType, after
    [add_value("a", 1.0)], and likewise after [set_value("a", 1.0)], the
    magnitude is still 0 while the sum of the squared weights is 1. *)
Lemma C1_magnitude_not_maintained :
  PointType.get_magnitude
    (PointType.run [PointType.AddValue "a" Double.one] PointType.new)
  <> PointType.sum_squares
       (PointType.run [PointType.AddValue "a" Double.one] PointType.new)
  /\ PointType.get_magnitude
       (PointType.run [PointType.SetValue "a" Double.one] PointType.new)
     <> PointType.sum_squares
          (PointType.run [PointType.SetValue "a" Double.one] PointType.new).
Proof.
  unfold PointType.get_magnitude.
  rewrite !magnitude_run, !sum_squares_run_new. simpl.
  split; apply DFin_ne; lra.
Qed.

(** C1, amended: a sequence of [set_value] and [add_value] calls leaves
    [get_magnitude()] at the value it had before the sequence; it is
    [Centroid::recalc_magnitude] that sets the cached magnitude to the sum
    of [get_value(t)^2] over the stored terms, without touching the
    weights. *)
Theorem C1_magnitude_cached (ops : list PointType.op) (p : PointType) :
  PointType.get_magnitude (PointType.run ops p) = PointType.get_magnitude p
  /\ PointType.get_magnitude (Centroid.recalc_magnitude (PointType.run ops p))
     = PointType.sum_squares (Centroid.recalc_magnitude (PointType.run ops p))
  /\ values (Centroid.recalc_magnitude (PointType.run ops p))
     = values (PointType.run ops p).
Proof.
  split; [apply magnitude_run |]. split; [| done].
  unfold PointType.get_magnitude.
  by rewrite recalc_magnitude_sum, sum_squares_recalc.
Qed.

(** ** Centroid::clear and Centroid::divide *)

Lemma unit_centroid_magnitude : magnitude unit_centroid = DFin (0 + 1 * 1).
Proof.
  unfold unit_centroid. rewrite recalc_magnitude_sum.
  unfold Centroid.new. rewrite add_value_new.
  unfold PointType.sum_squares. simpl. rewrite map_to_list_singleton. simpl.
  unfold PointType.get_value. simpl. by rewrite lookup_singleton_eq.
Qed.

(** C5, as stated, fails: [Centroid::clear] clears [values] and
    [termlist] only.  A centroid of magnitude 1 still answers 1 after
    [clear()]. *)
Lemma C5_clear_keeps_magnitude :
  PointType.get_magnitude (Centroid.clear unit_centroid) = DFin (0 + 1 * 1)
  /\ PointType.get_magnitude (Centroid.clear unit_centroid) <> Double.zero.
Proof.
  change (PointType.get_magnitude (Centroid.clear unit_centroid))
    with (magnitude unit_centroid).
  rewrite unit_centroid_magnitude. split; [done |]. apply DFin_ne. lra.
Qed.

(** C5, amended: after [clear()] the weight map is empty and the termlist
    is empty, so [get_value(t)] is 0.0 and [contains(t)] is false for every
    term; the cached magnitude keeps the value it had before the call. *)
Theorem C5_clear (c : Centroid) :
  values (Centroid.clear c) = ∅
  /\ termlist (Centroid.clear c) = []
  /\ PointType.termlist_size (Centroid.clear c) = 0
  /\ (forall t, PointType.get_value (Centroid.clear c) t = Double.zero)
  /\ (forall t, PointType.contains (Centroid.clear c) t = false)
  /\ PointType.get_magnitude (Centroid.clear c) = PointType.get_magnitude c.
Proof. repeat split. Qed.

(** C6: [Centroid::divide(n)] replaces every stored weight [w] by [w / n]
    and changes nothing else: the same terms are stored, the termlist and
    the cached magnitude are as before. *)
Theorem C6_divide (c : Centroid) (n : Z) :
  n <> 0%Z ->
  (forall t, values (Centroid.divide n c) !! t
             = (fun w => w /d Double.of_int n) <$> values c !! t)
  /\ (forall t, PointType.contains c t = true ->
                PointType.get_value (Centroid.divide n c) t
                = PointType.get_value c t /d Double.of_int n)
  /\ dom (values (Centroid.divide n c)) = dom (values c)
  /\ (forall t, PointType.contains (Centroid.divide n c) t
                = PointType.contains c t)
  /\ termlist (Centroid.divide n c) = termlist c
  /\ PointType.get_magnitude (Centroid.divide n c) = PointType.get_magnitude c.
Proof.
  intros _.
  assert (L : forall t, values (Centroid.divide n c) !! t
                        = (fun w => w /d Double.of_int n) <$> values c !! t).
  { intros t. unfold Centroid.divide. simpl. apply lookup_fmap. }
  split; [exact L |]. split; [| split; [| split]].
  - intros t. unfold PointType.contains, PointType.get_value. rewrite L.
    by destruct (values c !! t).
  - unfold Centroid.divide. simpl. apply dom_fmap_L.
  - intros t. unfold PointType.contains. rewrite L.
    by destruct (values c !! t).
  - done.
Qed.

Lemma C6_divide_witness :
  (2 <> 0)%Z
  /\ values (Centroid.divide 2 unit_centroid) !! "a"
     = (fun w => w /d Double.of_int 2) <$> values unit_centroid !! "a"
  /\ PointType.get_magnitude (Centroid.divide 2 unit_centroid)
     = PointType.get_magnitude unit_centroid.
Proof.
  split; [lia |].
  split; [apply (C6_divide unit_centroid 2); lia |].
  apply (C6_divide unit_centroid 2); lia.
Defined.

(** ** ClusterSet: clearing and indexing *)

(** C7: [clear_clusters()] keeps the number of clusters and, at every
    index, leaves a cluster with an empty point list and the centroid
    (terms, weights and magnitude) the cluster had before. *)
Theorem C7_clear_clusters (cs : ClusterSet) :
  ClusterSet.size (ClusterSet.clear_clusters cs) = ClusterSet.size cs
  /\ forall (i : nat) (c : Cluster),
       ClusterSet.get cs i = Some c ->
       exists c',
         ClusterSet.get (ClusterSet.clear_clusters cs) i = Some c'
         /\ cluster_docs c' = []
         /\ Cluster.size c' = 0
         /\ Cluster.get_centroid c' = Cluster.get_centroid c.
Proof.
  split.
  - unfold ClusterSet.size, ClusterSet.clear_clusters. simpl.
    apply length_fmap.
  - intros i c H. exists (Cluster.clear c).
    unfold ClusterSet.get, ClusterSet.clear_clusters in *. simpl.
    rewrite list_lookup_fmap, H. done.
Qed.

Lemma C7_clear_clusters_witness :
  exists c',
    ClusterSet.get (ClusterSet.clear_clusters two_clusters) 0 = Some c'
    /\ cluster_docs c' = []
    /\ Cluster.size c' = 0
    /\ Cluster.get_centroid c' = unit_centroid.
Proof.
  apply (proj2 (C7_clear_clusters two_clusters) 0
           (Cluster.add_cluster Point.new
              (Cluster.set_centroid unit_centroid Cluster.new))).
  reflexivity.
Defined.

(** C8: [get_cluster(i)] and [cluster_size(i)] throw a RangeError exactly
    when [i >= size()]; for [i < size()] they return the cluster at index
    [i], respectively its size; in both cases the ClusterSet is as it was
    before the call. *)
Theorem C8_get_cluster (cs : ClusterSet) (i : nat) :
  (is_RangeError (ClusterSet.get_cluster i cs).1 <-> ClusterSet.size cs <= i)
  /\ (is_RangeError (ClusterSet.cluster_size i cs).1
      <-> ClusterSet.size cs <= i)
  /\ (i < ClusterSet.size cs ->
      exists c, clusters cs !! i = Some c
                /\ ClusterSet.get_cluster i cs = (Ok c, cs)
                /\ ClusterSet.cluster_size i cs = (Ok (Cluster.size c), cs))
  /\ (ClusterSet.get_cluster i cs).2 = cs
  /\ (ClusterSet.cluster_size i cs).2 = cs.
Proof.
  unfold ClusterSet.get_cluster, ClusterSet.cluster_size, ClusterSet.size.
  destruct (Nat.leb_spec (length (clusters cs)) i) as [Hge | Hlt].
  - simpl. repeat split; try done; lia.
  - destruct (lookup_lt_is_Some_2 (clusters cs) i Hlt) as [c Hc].
    rewrite Hc. simpl. repeat split; try done; try lia.
    intros _. by exists c.
Qed.

Lemma C8_get_cluster_witness :
  exists c, clusters two_clusters !! 1 = Some c
            /\ ClusterSet.get_cluster 1 two_clusters = (Ok c, two_clusters)
            /\ ClusterSet.cluster_size 1 two_clusters
               = (Ok (Cluster.size c), two_clusters).
Proof.
  apply (C8_get_cluster two_clusters 1). vm_compute. lia.
Defined.

(** ** PointTermIterator *)

Section Iterator.

Import PointTermIterator.

Lemma next_started (it it' : t) : next it = Ok it' -> started it' = true.
Proof.
  unfold next, next_with. destruct (started it) eqn:Hs; simpl.
  - intros [= <-]. done.
  - intros [= <-]. done.
Qed.

Lemma skip_to_started tname (it it' : t) :
  skip_to tname it = Some it' -> started it' = started it.
Proof.
  unfold skip_to.
  destruct (scan (drop (i it) (vec it)) (i it) tname); [| done].
  intros [= <-]. done.
Qed.

(** An iterator is started only by a call of [next]. *)
Lemma run_started calls (it it' : t) :
  run calls it = Some it' -> started it' = true ->
  started it = true \/ In Next calls.
Proof.
  revert it. induction calls as [| [| tname] calls IH]; intros it Hrun Hs.
  - left. by injection Hrun as ->.
  - right. by left.
  - simpl in Hrun. destruct (skip_to tname it) as [it1 |] eqn:Hk; [| done].
    destruct (IH _ Hrun Hs) as [H | H].
    + left. by rewrite <- (skip_to_started _ _ _ Hk).
    + right. by right.
Qed.

Lemma at_end_started (it : t) : at_end it = true -> started it = true.
Proof. unfold at_end. by destruct (started it). Qed.

End Iterator.

(** C10: on a PointTermIterator just constructed, over any termlist (the
    empty one included), [at_end()] is false; and whenever [at_end()] is
    true after a sequence of calls on such an iterator, [next()] is among
    those calls. *)
Theorem C10_at_end_fresh (tl : list Wdf) :
  PointTermIterator.at_end (PointTermIterator.new tl) = false
  /\ forall calls it,
       PointTermIterator.run calls (PointTermIterator.new tl) = Some it ->
       PointTermIterator.at_end it = true ->
       In PointTermIterator.Next calls.
Proof.
  split; [done |]. intros calls it Hrun Hend.
  destruct (run_started _ _ _ Hrun (at_end_started _ Hend)) as [H | H];
    [done | exact H].
Qed.

Lemma C10_at_end_fresh_witness :
  PointTermIterator.at_end (PointTermIterator.new []) = false
  /\ In PointTermIterator.Next [PointTermIterator.Next].
Proof.
  split; [apply (C10_at_end_fresh []) |].
  apply (proj2 (C10_at_end_fresh []) [PointTermIterator.Next]
           {| PointTermIterator.vec := []; PointTermIterator.i := 0;
              PointTermIterator.end_ := 0; PointTermIterator.size := 0;
              PointTermIterator.started := true |});
    reflexivity.
Defined.

(** ** Point::initialize *)

Lemma foldl_pointwise {A B} (f f' : A -> B -> A) (l : list B) (a : A) :
  (forall x y, f x y = f' x y) -> foldl f a l = foldl f' a l.
Proof.
  intros H. revert a. induction l as [| y l IH]; intros a; [done |].
  simpl. by rewrite H, IH.
Qed.

Section Initialize.

Implicit Types (tlg g : TermListGroup) (p : PointType) (t : string).
Implicit Types (e : string * nat) (l : list (string * nat)).

Lemma freq_lookup g t :
  TermListGroup.freq g t = default 0 (termfreq g !! t).
Proof.
  unfold TermListGroup.freq, TermListGroup.get_termfreq.
  by destruct (termfreq g !! t).
Qed.

(** Asking for a count may insert a zero entry; no count changes. *)
Lemma freq_get_termfreq g t t' :
  TermListGroup.freq (TermListGroup.get_termfreq t g).2 t'
  = TermListGroup.freq g t'.
Proof.
  rewrite !freq_lookup. unfold TermListGroup.get_termfreq.
  destruct (termfreq g !! t) eqn:Ht; simpl; [done |].
  destruct (decide (t = t')) as [<- | Hne].
  - by rewrite lookup_insert_eq, Ht.
  - by rewrite lookup_insert_ne.
Qed.

Lemma doccount_get_termfreq g t :
  docs_num (TermListGroup.get_termfreq t g).2 = docs_num g.
Proof.
  unfold TermListGroup.get_termfreq. by destruct (termfreq g !! t).
Qed.

Lemma clamp_wdf_max (n : nat) : Point.clamp_wdf n = Nat.max n 1.
Proof. unfold Point.clamp_wdf. destruct (Nat.ltb_spec n 1); lia. Qed.

Variable N : nat.

Lemma entry_weight_ext g g' e :
  (forall t, TermListGroup.freq g' t = TermListGroup.freq g t) ->
  entry_weight N g' e = entry_weight N g e.
Proof. intros H. unfold entry_weight. by rewrite H. Qed.

Lemma initialize_step_eq p g e :
  Point.initialize_step N (p, g) e
  = ({| values := <[e.1 := entry_weight N g e]> (values p);
        magnitude :=
          magnitude p +d entry_weight N g e *d entry_weight N g e;
        termlist := termlist p ++ [mkWdf e.1 (Nat.max e.2 1)] |},
     (TermListGroup.get_termfreq e.1 g).2).
Proof.
  unfold Point.initialize_step, entry_weight, TermListGroup.freq.
  rewrite clamp_wdf_max.
  by destruct (TermListGroup.get_termfreq e.1 g) as [df g'].
Qed.

(** What the loop of [initialize] leaves, entry by entry. *)
Lemma initialize_loop l : forall p g,
  let st := foldl (Point.initialize_step N) (p, g) l in
  (forall t, TermListGroup.freq st.2 t = TermListGroup.freq g t)
  /\ termlist st.1
     = termlist p ++ ((fun e => mkWdf e.1 (Nat.max e.2 1)) <$> l)
  /\ magnitude st.1
     = foldl (fun m e => m +d entry_weight N g e *d entry_weight N g e)
             (magnitude p) l
  /\ (forall t, t ∉ l.*1 -> values st.1 !! t = values p !! t)
  /\ (NoDup l.*1 ->
      forall e, e ∈ l -> values st.1 !! e.1 = Some (entry_weight N g e)).
Proof.
  induction l as [| e l IH]; intros p g st; subst st; cbn [foldl].
  - simpl. repeat split; try done.
    + by rewrite app_nil_r.
    + intros _ e H. by apply elem_of_nil in H.
  - rewrite initialize_step_eq.
    set (g1 := (TermListGroup.get_termfreq e.1 g).2).
    assert (Hg : forall t, TermListGroup.freq g1 t = TermListGroup.freq g t)
      by (intros t; apply freq_get_termfreq).
    match goal with |- context [foldl _ (?q, g1) l] => set (p1 := q) end.
    destruct (IH p1 g1) as (Hf & Htl & Hm & Hout & Hin).
    split; [| split; [| split; [| split]]].
    + intros t. by rewrite Hf, Hg.
    + rewrite Htl. subst p1. simpl. by rewrite <- app_assoc.
    + rewrite Hm. subst p1. simpl. apply foldl_pointwise.
      intros m e'. by rewrite (entry_weight_ext g g1 e' Hg).
    + intros t Ht. apply not_elem_of_cons in Ht as [Hne Ht].
      rewrite (Hout t Ht). subst p1. simpl. by rewrite lookup_insert_ne.
    + intros Hnd e' He'. apply NoDup_cons in Hnd as [Hnotin Hnd].
      apply elem_of_cons in He' as [-> | He'].
      * rewrite (Hout _ Hnotin). subst p1. simpl.
        by rewrite lookup_insert_eq.
      * rewrite (Hin Hnd e' He'). by rewrite (entry_weight_ext g g1 e' Hg).
Qed.

(** The weight that remains for a term is the one of its last entry. *)
Lemma initialize_loop_last l : forall p g l1 e l2,
  l = l1 ++ e :: l2 -> e.1 ∉ l2.*1 ->
  values (foldl (Point.initialize_step N) (p, g) l).1 !! e.1
  = Some (entry_weight N g e).
Proof.
  induction l as [| e0 l IH]; intros p g l1 e l2 Hl Hlast.
  - by destruct l1.
  - cbn [foldl]. rewrite initialize_step_eq.
    set (g1 := (TermListGroup.get_termfreq e0.1 g).2).
    assert (Hg : forall t, TermListGroup.freq g1 t = TermListGroup.freq g t)
      by (intros t; apply freq_get_termfreq).
    destruct l1 as [| e1 l1]; simpl in Hl; injection Hl as -> ->.
    + match goal with |- context [foldl _ (?q, g1) l2] => set (p1 := q) end.
      destruct (initialize_loop l2 p1 g1) as (_ & _ & _ & Hout & _).
      rewrite (Hout _ Hlast). subst p1. simpl. by rewrite lookup_insert_eq.
    + rewrite (IH _ g1 l1 e l2 eq_refl Hlast).
      by rewrite (entry_weight_ext g g1 e Hg).
Qed.

End Initialize.

Lemma initialize_base (tlg : TermListGroup) (d : Document) (p : Point) :
  point_base (Point.initialize tlg d p).1
  = (foldl (Point.initialize_step (TermListGroup.get_doccount tlg))
           (point_base p, tlg) (doc_terms d)).1.
Proof.
  unfold Point.initialize.
  by destruct (foldl _ (point_base p, tlg) (doc_terms d)).
Qed.

Lemma initialize_doc (tlg : TermListGroup) (d : Document) (p : Point) :
  doc (Point.initialize tlg d p).1 = d.
Proof.
  unfold Point.initialize.
  by destruct (foldl _ (point_base p, tlg) (doc_terms d)).
Qed.

Lemma initialize_get_value (tlg : TermListGroup) (d : Document) (p : Point)
    (e : string * nat) :
  NoDup (doc_terms d).*1 -> e ∈ doc_terms d ->
  PointType.get_value (point_base (Point.initialize tlg d p).1) e.1
  = Point.weight (TermListGroup.get_doccount tlg) (Nat.max e.2 1)
                 (TermListGroup.freq tlg e.1).
Proof.
  intros Hnd He. rewrite initialize_base. apply get_value_lookup.
  by apply (initialize_loop (TermListGroup.get_doccount tlg) (doc_terms d)
              (point_base p) tlg).
Qed.

(** C2, as stated, fails in its termlist part: the entry [initialize]
    appends carries the (clamped) wdf of the document, not 1.  For the
    document with "a" at wdf 2 the termlist becomes [("a", 2)]. *)
Lemma C2_termlist_entry_has_wdf :
  termlist (point_base (Point.initialize tlg_a2 doc_a2 Point.new).1)
  = [mkWdf "a" 2]
  /\ termlist (point_base (Point.initialize tlg_a2 doc_a2 Point.new).1)
     <> termlist (point_base Point.new)
        ++ ((fun e : string * nat => mkWdf e.1 1) <$> doc_terms doc_a2).
Proof.
  assert (H : termlist (point_base (Point.initialize tlg_a2 doc_a2 Point.new).1)
              = [mkWdf "a" 2]) by reflexivity.
  split; [exact H |]. rewrite H. simpl. intros E. discriminate E.
Qed.

(** C2, amended: [Point::initialize(tlg, doc)] stores for every entry
    [(term, wdf)] of the document the weight
    [w = (1 + ln(max(wdf,1))) * ln(N / tlg.termfreq(term))], [N] being
    [tlg.get_doccount()] (should the term iterator yield a term more than
    once, the weight of its last entry remains); it appends the entry
    [(term, max(wdf,1))] to the termlist, in the document's order; it adds
    [w^2] to the magnitude for every entry, in that order; and it records
    the document. *)
Theorem C2_initialize (tlg : TermListGroup) (d : Document) (p : Point) :
  let N := TermListGroup.get_doccount tlg in
  let w := fun e : string * nat =>
    (Double.one +d Double.log (Double.of_nat (Nat.max e.2 1)))
    *d Double.log (Double.of_nat N
                   /d Double.of_nat (TermListGroup.freq tlg e.1)) in
  let p' := (Point.initialize tlg d p).1 in
  (forall l1 e l2,
     doc_terms d = l1 ++ e :: l2 -> e.1 ∉ l2.*1 ->
     values (point_base p') !! e.1 = Some (w e)
     /\ PointType.get_value (point_base p') e.1 = w e)
  /\ (NoDup (doc_terms d).*1 ->
      forall e, e ∈ doc_terms d ->
                PointType.get_value (point_base p') e.1 = w e)
  /\ termlist (point_base p')
     = termlist (point_base p)
       ++ ((fun e => mkWdf e.1 (Nat.max e.2 1)) <$> doc_terms d)
  /\ PointType.get_magnitude (point_base p')
     = foldl (fun m e => m +d w e *d w e)
             (PointType.get_magnitude (point_base p)) (doc_terms d)
  /\ Point.get_document p' = d.
Proof.
  intros N w p'.
  destruct (initialize_loop N (doc_terms d) (point_base p) tlg)
    as (_ & Htl & Hm & _ & Hin).
  subst p'. rewrite initialize_base. fold N.
  split; [| split; [| split; [| split]]].
  - intros l1 e l2 Hl Hlast.
    pose proof (initialize_loop_last N _ (point_base p) tlg _ _ _ Hl Hlast)
      as H.
    split; [exact H | by apply get_value_lookup].
  - intros Hnd e He. apply get_value_lookup. exact (Hin Hnd e He).
  - exact Htl.
  - exact Hm.
  - apply initialize_doc.
Qed.

Lemma C2_initialize_witness :
  NoDup (doc_terms doc_a2).*1
  /\ PointType.get_value
       (point_base (Point.initialize tlg_a2 doc_a2 Point.new).1) "a"
     = (Double.one +d Double.log (Double.of_nat 2))
       *d Double.log (Double.of_nat 1 /d Double.of_nat 1)
  /\ values (point_base (Point.initialize tlg_a2 doc_a2 Point.new).1) !! "a"
     = Some ((Double.one +d Double.log (Double.of_nat 2))
             *d Double.log (Double.of_nat 1 /d Double.of_nat 1)).
Proof.
  assert (H : NoDup (doc_terms doc_a2).*1).
  { simpl. apply NoDup_singleton. }
  split; [exact H |]. split.
  - apply (proj1 (proj2 (C2_initialize tlg_a2 doc_a2 Point.new)) H ("a", 2)).
    by left.
  - apply (proj1 (C2_initialize tlg_a2 doc_a2 Point.new) [] ("a", 2) []).
    + reflexivity.
    + simpl. apply not_elem_of_nil.
Defined.

(** ** Special values in the weights *)

(** Every term of a list of entries has a last entry. *)
Lemma last_entry (l : list (string * nat)) (t : string) :
  t ∈ l.*1 ->
  exists l1 e' l2, l = l1 ++ e' :: l2 /\ e'.1 = t /\ t ∉ l2.*1.
Proof.
  induction l as [| e0 l IH]; intros Ht; [by apply elem_of_nil in Ht |].
  destruct (decide (t ∈ l.*1)) as [Hin | Hnotin].
  - destruct (IH Hin) as (l1 & e' & l2 & -> & Hterm & Hlast).
    by exists (e0 :: l1), e', l2.
  - simpl in Ht. apply elem_of_cons in Ht as [-> | Ht]; [| done].
    by exists [], e0, l.
Qed.

Section Numeric.

Lemma INR_pos (n : nat) : 0 < n -> (0 < INR n)%R.
Proof. intros H. apply lt_0_INR. lia. Qed.

(** With a positive document count and a positive document frequency
    the weight is the real number of the TF-IDF formula. *)
Lemma weight_finite (N wdf df : nat) :
  0 < N -> 0 < df -> 0 < wdf ->
  Point.weight N wdf df
  = DFin ((1 + ln (INR wdf)) * ln (INR N / INR df)).
Proof.
  intros HN Hdf Hwdf. unfold Point.weight, Double.of_nat, Double.one.
  rewrite (log_pos (INR wdf)) by by apply INR_pos.
  rewrite (div_pos (INR N) (INR df)) by by apply INR_pos.
  rewrite log_pos; [done |].
  apply Rdiv_lt_0_compat; by apply INR_pos.
Qed.

Lemma tf_pos (wdf : nat) : 0 < wdf -> (0 < 1 + ln (INR wdf))%R.
Proof.
  intros H. assert (1 <= INR wdf)%R by (apply (le_INR 1); lia).
  assert (ln 1 <= ln (INR wdf))%R.
  { destruct (Req_dec_T 1 (INR wdf)) as [<- | Hne]; [lra |].
    left. apply ln_increasing; lra. }
  rewrite ln_1 in *. lra.
Qed.

(** A document frequency of 0 among a positive number of documents:
    [size/termfreq] is +infinity, and so are its logarithm and the
    weight. *)
Lemma weight_df_zero (N wdf : nat) :
  0 < N -> 0 < wdf -> Point.weight N wdf 0 = DInf false.
Proof.
  intros HN Hwdf. unfold Point.weight, Double.of_nat, Double.one.
  rewrite (log_pos (INR wdf)) by by apply INR_pos.
  change (INR 0) with 0%R.
  rewrite div_pos_zero by by apply INR_pos.
  simpl Double.log. simpl Double.add.
  apply mul_pos_inf. by apply tf_pos.
Qed.

(** No document at all and a document frequency of 0: [0/0] is NaN. *)
Lemma weight_df_zero_empty (wdf : nat) :
  0 < wdf -> Point.weight 0 wdf 0 = DNaN.
Proof.
  intros Hwdf. unfold Point.weight, Double.of_nat, Double.one.
  rewrite (log_pos (INR wdf)) by by apply INR_pos.
  change (INR 0) with 0%R. by rewrite div_zero_zero.
Qed.

Lemma all_finite_get_value (p : PointType) (t : string) :
  all_finite p -> Double.is_finite (PointType.get_value p t) = true.
Proof.
  intros [H _]. unfold PointType.get_value.
  destruct (values p !! t) as [w |] eqn:Ht; [| done].
  exact (H t w Ht).
Qed.

Lemma initialize_loop_finite (N : nat) (l : list (string * nat)) :
  0 < N ->
  forall (p : PointType) (g : TermListGroup),
    (forall e, e ∈ l -> 0 < TermListGroup.freq g e.1) ->
    all_finite p ->
    all_finite (foldl (Point.initialize_step N) (p, g) l).1.
Proof.
  intros HN. induction l as [| e l IH]; intros p g Hdf Hp; [done |].
  cbn [foldl]. rewrite initialize_step_eq. apply IH.
  - intros e' He'. rewrite freq_get_termfreq. apply Hdf. by right.
  - assert (Hw : entry_weight N g e
                 = DFin ((1 + ln (INR (Nat.max e.2 1)))
                         * ln (INR N / INR (TermListGroup.freq g e.1)))).
    { apply weight_finite; [done | | lia]. apply Hdf. by left. }
    destruct Hp as [Hv Hm]. split; simpl.
    + apply map_Forall_insert_2; [by rewrite Hw | exact Hv].
    + rewrite Hw. by destruct (magnitude p).
Qed.

End Numeric.

(** C3, as stated, fails for [Point::initialize]: it divides by the
    document frequency without a guard.  For a term the group has not
    seen, the weight stored and returned by [get_value] is +infinity. *)
Lemma C3_initialize_stores_infinity :
  PointType.get_value
    (point_base (Point.initialize tlg_unseen doc_a1 Point.new).1) "a"
  = DInf false
  /\ Double.is_finite
       (PointType.get_value
          (point_base (Point.initialize tlg_unseen doc_a1 Point.new).1) "a")
     = false.
Proof.
  assert (Hnd : NoDup (doc_terms doc_a1).*1) by (simpl; apply NoDup_singleton).
  assert (Hin : ("a", 1) ∈ doc_terms doc_a1) by (simpl; by left).
  pose proof (initialize_get_value tlg_unseen doc_a1 Point.new _ Hnd Hin) as H.
  change (("a", 1).1) with "a" in H. rewrite H.
  change (TermListGroup.get_doccount tlg_unseen) with 1.
  change (TermListGroup.freq tlg_unseen "a") with 0.
  change (Nat.max ("a", 1).2 1) with 1.
  rewrite weight_df_zero by lia. done.
Qed.

(** C3, amended: cosine similarity with an operand of magnitude 0 is 0.
    [Point::initialize] has no guard on the document frequency: on a new
    Point, with a positive document count and a positive document
    frequency for every term of the document, each weight it stores and
    the magnitude are finite; for a term of document frequency 0 it stores
    [ln(N/0)] times the term-frequency factor, which is +infinity when
    [N > 0] and NaN when [N = 0]. *)
Theorem C3_numeric (tlg : TermListGroup) (d : Document) (a b : PointType) :
  (Double.is_zero (PointType.get_magnitude a) = true
   \/ Double.is_zero (PointType.get_magnitude b) = true ->
   CosineDistance.similarity a b = Double.zero)
  /\ (0 < TermListGroup.get_doccount tlg ->
      (forall e, e ∈ doc_terms d -> 0 < TermListGroup.freq tlg e.1) ->
      (forall t,
         Double.is_finite
           (PointType.get_value
              (point_base (Point.initialize tlg d Point.new).1) t) = true)
      /\ Double.is_finite
           (PointType.get_magnitude
              (point_base (Point.initialize tlg d Point.new).1)) = true)
  /\ (forall e, e ∈ doc_terms d -> TermListGroup.freq tlg e.1 = 0 ->
      PointType.get_value
        (point_base (Point.initialize tlg d Point.new).1) e.1
      = if TermListGroup.get_doccount tlg =? 0 then DNaN else DInf false).
Proof.
  split; [| split].
  - intros H. unfold CosineDistance.similarity.
    destruct H as [-> | ->]; [done |]. by rewrite orb_true_r.
  - intros HN Hdf.
    assert (Hfin : all_finite
                     (point_base (Point.initialize tlg d Point.new).1)).
    { rewrite initialize_base. apply initialize_loop_finite; [done | done |].
      split; [apply map_Forall_empty | done]. }
    split.
    + intros t. by apply all_finite_get_value.
    + apply Hfin.
  - intros e He Hz.
    assert (Ht : e.1 ∈ (doc_terms d).*1)
      by (apply list_elem_of_fmap; by exists e).
    destruct (last_entry _ _ Ht) as (l1 & e' & l2 & Hl & Hterm & Hlast).
    rewrite <- Hterm in *. rewrite initialize_base.
    rewrite (get_value_lookup _ _ _
               (initialize_loop_last _ _ _ tlg _ _ _ Hl Hlast)).
    unfold entry_weight. rewrite Hz.
    destruct (Nat.eqb_spec (TermListGroup.get_doccount tlg) 0) as [-> | Hne].
    + apply weight_df_zero_empty. lia.
    + apply weight_df_zero; lia.
Qed.

Lemma C3_numeric_witness :
  CosineDistance.similarity PointType.new unit_centroid = Double.zero
  /\ Double.is_finite
       (PointType.get_value
          (point_base (Point.initialize tlg_a2 doc_a2 Point.new).1) "a")
     = true
  /\ PointType.get_value
       (point_base (Point.initialize tlg_unseen doc_a1 Point.new).1) "a"
     = DInf false.
Proof.
  split; [| split].
  - apply (C3_numeric tlg_a2 doc_a2 PointType.new unit_centroid).
    left. apply Rzero_0.
  - apply (C3_numeric tlg_a2 doc_a2 PointType.new unit_centroid).
    + vm_compute. lia.
    + intros e He. apply list_elem_of_singleton in He as ->.
      vm_compute. lia.
  - apply (proj2 (proj2 (C3_numeric tlg_unseen doc_a1 PointType.new
                           unit_centroid)) ("a", 1)).
    + by left.
    + reflexivity.
Defined.

(** ** Cluster::recalculate *)

Section Recalculate.

Implicit Types (c cen : Centroid) (t : string) (w : double).

Lemma get_value_add_value t w cen t' :
  PointType.get_value (PointType.add_value t w cen) t'
  = if decide (t' = t) then PointType.get_value cen t' +d w
    else PointType.get_value cen t'.
Proof.
  unfold PointType.add_value, PointType.get_value.
  destruct (decide (t' = t)) as [-> | Hne].
  - destruct (values cen !! t); cbn [values]; rewrite lookup_insert_eq;
      [done |].
    by rewrite add_zero_l.
  - destruct (values cen !! t); cbn [values]; by rewrite lookup_insert_ne.
Qed.

(** Adding the weights [v] of a list of terms: the value at [t] grows
    by [v t] once for every occurrence of [t] in the list. *)
Lemma get_value_add_terms (v : string -> double) (l : list string) :
  forall cen t,
    PointType.get_value
      (foldl (fun cen t' => PointType.add_value t' (v t') cen) cen l) t
    = Nat.iter (length (filter (fun t' => t' = t) l))
               (fun x => x +d v t) (PointType.get_value cen t).
Proof.
  induction l as [| t0 l IH]; intros cen t; [done |].
  cbn [foldl]. rewrite IH, get_value_add_value.
  rewrite filter_cons. destruct (decide (t0 = t)) as [-> | Hne].
  - rewrite decide_True by done. simpl length.
    by rewrite Nat.iter_succ_r.
  - by rewrite decide_False by done.
Qed.

Lemma iter_add_zero (n : nat) (x : double) :
  Nat.iter n (fun y => y +d Double.zero) x = x.
Proof. induction n as [| n IH]; [done |]. simpl. by rewrite IH, add_zero_r. Qed.

(** One point of the cluster adds its weight for [t] to the centroid
    under construction. *)
Lemma get_value_add_point_terms cen (p : Point) t :
  keys_listed_once (point_base p) ->
  PointType.get_value (Cluster.add_point_terms cen p) t
  = PointType.get_value cen t +d PointType.get_value (point_base p) t.
Proof.
  intros Hp. unfold Cluster.add_point_terms.
  rewrite (get_value_add_terms (PointType.get_value (point_base p))).
  destruct (values (point_base p) !! t) as [w |] eqn:Ht.
  - by rewrite (Hp t) by by rewrite Ht.
  - rewrite (get_value_absent _ _ Ht). rewrite iter_add_zero.
    by rewrite add_zero_r.
Qed.

Lemma get_value_add_points (ps : list Point) :
  Forall (fun p => keys_listed_once (point_base p)) ps ->
  forall cen t,
    PointType.get_value (foldl Cluster.add_point_terms cen ps) t
    = foldl (fun acc p => acc +d PointType.get_value (point_base p) t)
            (PointType.get_value cen t) ps.
Proof.
  induction 1 as [| p ps Hp _ IH]; intros cen t; [done |].
  cbn [foldl]. by rewrite IH, get_value_add_point_terms.
Qed.

Lemma get_value_divide (n : Z) cen t :
  PointType.contains (Centroid.divide n cen) t = true ->
  PointType.get_value (Centroid.divide n cen) t
  = PointType.get_value cen t /d Double.of_int n.
Proof.
  unfold PointType.contains, PointType.get_value, Centroid.divide. simpl.
  rewrite lookup_fmap. by destruct (values cen !! t).
Qed.

Lemma of_int_of_nat (n : nat) : Double.of_int (Z.of_nat n) = Double.of_nat n.
Proof. unfold Double.of_int, Double.of_nat. by rewrite INR_IZR_INZ. Qed.

End Recalculate.

(** [initialize] on a new Point, for a document with distinct terms,
    establishes the invariant. *)
Lemma filter_eq_absent (t : string) (l : list string) :
  t ∉ l -> filter (fun t' => t' = t) l = [].
Proof.
  induction l as [| t0 l IH]; intros Hnotin; [done |].
  apply not_elem_of_cons in Hnotin as [Hne Hnotin].
  rewrite filter_cons, decide_False by done. by apply IH.
Qed.

Lemma filter_eq_once (t : string) (l : list string) :
  NoDup l -> t ∈ l -> length (filter (fun t' => t' = t) l) = 1.
Proof.
  induction 1 as [| t0 l Hnotin Hnd IH]; intros Hin.
  - by apply elem_of_nil in Hin.
  - rewrite filter_cons. destruct (decide (t0 = t)) as [-> | Hne].
    + by rewrite filter_eq_absent.
    + apply IH. by apply elem_of_cons in Hin as [-> | Hin].
Qed.

Lemma initialize_keys_listed_once (tlg : TermListGroup) (d : Document) :
  NoDup (doc_terms d).*1 ->
  keys_listed_once (point_base (Point.initialize tlg d Point.new).1).
Proof.
  intros Hnd t Hsome. rewrite initialize_base in *.
  destruct (initialize_loop (TermListGroup.get_doccount tlg) (doc_terms d)
              (point_base Point.new) tlg) as (_ & Htl & _ & Hout & _).
  assert (Hterms : PointType.terms
      (foldl (Point.initialize_step (TermListGroup.get_doccount tlg))
             (point_base Point.new, tlg) (doc_terms d)).1 = (doc_terms d).*1).
  { unfold PointType.terms. rewrite Htl. simpl.
    rewrite <- list_fmap_compose. done. }
  rewrite Hterms. apply filter_eq_once; [done |].
  destruct (decide (t ∈ (doc_terms d).*1)) as [Hin | Hnotin]; [done |].
  rewrite (Hout t Hnotin) in Hsome. simpl in Hsome.
  rewrite lookup_empty in Hsome. by destruct Hsome.
Qed.

(** ** RoundRobin *)

Lemma get_documents_loop_docs (c : Cluster) (n : nat) :
  forall i acc,
    i + n = Cluster.size c ->
    docs (Cluster.get_documents_loop c n i acc)
    = docs acc ++ (doc <$> drop i (cluster_docs c)).
Proof.
  unfold Cluster.size.
  induction n as [| n IH]; intros i acc Hlen; simpl.
  - rewrite drop_ge by lia. by rewrite app_nil_r.
  - unfold Cluster.get_index.
    destruct (cluster_docs c !! i) as [x |] eqn:Hx.
    + rewrite IH by lia. simpl. rewrite <- app_assoc. f_equal.
      by rewrite (drop_S _ _ _ Hx).
    + apply lookup_ge_None in Hx. lia.
Qed.

Lemma get_documents_docs (c : Cluster) :
  docs (Cluster.get_documents c) = docs_of c.
Proof.
  unfold Cluster.get_documents.
  by rewrite get_documents_loop_docs by lia.
Qed.

Section RoundRobinFacts.

Variable k : nat.
Hypothesis k_pos : 0 < k.

Lemma residue_mod (q j : nat) : j < k -> (q * k + j) mod k = j.
Proof.
  intros Hj. symmetry. apply (Nat.mod_unique _ _ q); [done | lia].
Qed.

Lemma index_split (n : nat) : (n / k) * k + n mod k = n.
Proof. pose proof (Nat.div_mod_eq n k). lia. Qed.

Lemma residue_lt (q j n : nat) :
  j = n mod k -> (q * k + j < n <-> q < n / k).
Proof.
  intros ->. pose proof (index_split n) as E.
  pose proof (Nat.mod_upper_bound n k ltac:(lia)) as Hlt.
  split; intros H; nia.
Qed.

Variable mset : MSet.

Lemma assigned_length (n j : nat) (cs : ClusterSet) (c : Cluster) :
  n <= length mset -> assigned k mset n cs -> clusters cs !! j = Some c ->
  j = n mod k -> length (docs_of c) = n / k.
Proof.
  intros Hn [_ Hinv] Hc Hj.
  assert (Hlo : ~ n / k < length (docs_of c)).
  { intros Hlt. apply lookup_lt_is_Some_2 in Hlt as [d Hd].
    rewrite (Hinv j c _ Hc) in Hd. case_decide as Hlt; [| done].
    apply (residue_lt _ _ _ Hj) in Hlt. lia. }
  assert (Hhi : ~ length (docs_of c) < n / k).
  { intros Hlt. apply (residue_lt _ _ _ Hj) in Hlt as Hlt'.
    pose proof (Hinv j c (length (docs_of c)) Hc) as Hq.
    rewrite decide_True in Hq by done.
    rewrite lookup_ge_None_2 in Hq by lia.
    symmetry in Hq. apply lookup_ge_None in Hq. lia. }
  lia.
Qed.

Lemma assigned_step (n : nat) (cs : ClusterSet) (p : Point) :
  mset !! n = Some (doc p) -> assigned k mset n cs ->
  assigned k mset (S n) (ClusterSet.add_to_cluster p (n mod k) cs).
Proof.
  intros Hd Hcs. pose proof Hcs as [Hsz Hinv].
  assert (Hn : n < length mset) by (apply lookup_lt_is_Some; by eexists).
  pose proof (Nat.mod_upper_bound n k ltac:(lia)) as Hmod.
  unfold ClusterSet.size in Hsz.
  destruct (lookup_lt_is_Some_2 (clusters cs) (n mod k) ltac:(lia))
    as [c0 Hc0].
  unfold ClusterSet.add_to_cluster. rewrite Hc0.
  split; [unfold ClusterSet.size; simpl; by rewrite length_insert |].
  simpl. intros j c q Hc.
  destruct (decide (j = n mod k)) as [-> | Hne].
  - rewrite list_lookup_insert_eq in Hc by lia. injection Hc as <-.
    pose proof (assigned_length n _ cs c0 ltac:(lia) Hcs Hc0 eq_refl) as Hlen.
    unfold docs_of, Cluster.add_cluster. simpl. rewrite fmap_app. simpl.
    fold (docs_of c0). pose proof (index_split n) as E.
    destruct (lt_eq_lt_dec q (n / k)) as [[Hlt | ->] | Hgt].
    + rewrite lookup_app_l by lia. rewrite (Hinv _ _ _ Hc0).
      rewrite !decide_True; [done | nia | nia].
    + rewrite lookup_app_r by lia. rewrite Hlen, Nat.sub_diag. simpl.
      rewrite decide_True by lia. by rewrite E.
    + rewrite lookup_ge_None_2 by (rewrite length_app; simpl; lia).
      rewrite decide_False; [done | nia].
  - rewrite list_lookup_insert_ne in Hc by done.
    rewrite (Hinv _ _ _ Hc).
    assert (Hj : j < k).
    { rewrite <- Hsz. apply lookup_lt_is_Some. by eexists. }
    assert (q * k + j <> n).
    { intros <-. by rewrite residue_mod in Hne. }
    repeat case_decide; try done; lia.
Qed.

Lemma assigned_assign (rest : list Document) :
  forall (pre : list Document) tlg cs,
    mset = pre ++ rest -> assigned k mset (length pre) cs ->
    assigned k mset (length mset)
             (RoundRobin.assign k rest (length pre) tlg cs).
Proof.
  induction rest as [| d rest IH]; intros pre tlg cs Hm Hcs.
  - simpl. replace (length mset) with (length pre); [exact Hcs |].
    by rewrite Hm, app_nil_r.
  - simpl.
    destruct (Point.initialize tlg d Point.new) as [p tlg'] eqn:Hp.
    assert (Hdoc : doc p = d).
    { pose proof (initialize_doc tlg d Point.new) as H.
      by rewrite Hp in H. }
    replace (S (length pre)) with (length (pre ++ [d]))
      by (rewrite length_app; simpl; lia).
    apply IH.
    + by rewrite <- app_assoc.
    + rewrite length_app. simpl. rewrite Nat.add_1_r.
      apply assigned_step; [| done].
      rewrite Hm, Hdoc. by rewrite list_lookup_middle.
Qed.

Lemma new_clusters (n : nat) :
  clusters (Nat.iter n (ClusterSet.add_cluster Cluster.new) ClusterSet.new)
  = replicate n Cluster.new.
Proof.
  induction n as [| n IH]; [done |].
  simpl. rewrite IH. clear IH.
  induction n as [| n IH]; [done |]. simpl. by rewrite IH.
Qed.

Lemma assigned_init :
  assigned k mset 0
           (Nat.iter k (ClusterSet.add_cluster Cluster.new) ClusterSet.new).
Proof.
  split.
  - unfold ClusterSet.size. by rewrite new_clusters, length_replicate.
  - intros j c q Hc. rewrite new_clusters in Hc.
    apply lookup_replicate in Hc as [-> _].
    rewrite decide_False by lia. done.
Qed.

End RoundRobinFacts.

(** C9: for [k >= 1] and a non-empty MSet, [RoundRobin(k).cluster(mset)]
    returns a set of [k] clusters in which the document at MSet index [i]
    is in cluster [i mod k] (at position [i / k]); every entry of cluster
    [j] is the document of an MSet index congruent to [j] modulo [k], so
    that, the documents of the MSet being distinct, the document at index
    [i] is in no cluster but [i mod k]. *)
Theorem C9_round_robin (k : nat) (mset : MSet) :
  1 <= k -> mset <> [] ->
  exists cs,
    RoundRobin.cluster (RoundRobin.mk k) mset = Ok cs
    /\ ClusterSet.size cs = k
    /\ (forall i d,
          mset !! i = Some d ->
          exists c,
            ClusterSet.get cs (i mod k) = Some c
            /\ DocumentSet.get (Cluster.get_documents c) (i / k) = Some d)
    /\ (forall j c q d,
          ClusterSet.get cs j = Some c ->
          DocumentSet.get (Cluster.get_documents c) q = Some d ->
          mset !! (q * k + j) = Some d /\ (q * k + j) mod k = j)
    /\ (NoDup mset ->
        forall i d j c,
          mset !! i = Some d ->
          ClusterSet.get cs j = Some c ->
          d ∈ docs (Cluster.get_documents c) ->
          j = i mod k).
Proof.
  intros Hk Hne.
  assert (Hk' : 0 < k) by lia.
  unfold RoundRobin.cluster. simpl.
  destruct (Nat.eqb_spec k 0) as [-> | _]; [lia |].
  destruct (Nat.eqb_spec (length mset) 0) as [Hz | _].
  { by apply length_zero_iff_nil in Hz. }
  simpl. eexists. split; [reflexivity |].
  pose proof (assigned_assign k Hk' mset mset [] 
                (TermListGroup.add_documents (MSetDocumentSource.new mset)
                                             TermListGroup.new)
                _ eq_refl (assigned_init k Hk' mset)) as [Hsz Hinv].
  simpl in Hsz, Hinv.
  set (cs := RoundRobin.assign k mset 0 _ _) in *.
  assert (Hpart : forall j c q d,
            ClusterSet.get cs j = Some c ->
            DocumentSet.get (Cluster.get_documents c) q = Some d ->
            mset !! (q * k + j) = Some d /\ (q * k + j) mod k = j).
  { intros j c q d Hc Hd. unfold ClusterSet.get, DocumentSet.get in *.
    rewrite get_documents_docs, (Hinv _ _ _ Hc) in Hd.
    case_decide; [| done]. split; [done |].
    apply residue_mod; [done |].
    rewrite <- Hsz. apply lookup_lt_is_Some. by eexists. }
  split; [exact Hsz |]. split; [| split; [exact Hpart |]].
  - intros i d Hd.
    assert (Hi : i < length mset) by (apply lookup_lt_is_Some; by eexists).
    pose proof (Nat.mod_upper_bound i k ltac:(lia)) as Hmod.
    destruct (lookup_lt_is_Some_2 (clusters cs) (i mod k)) as [c Hc].
    { unfold ClusterSet.size in Hsz. lia. }
    exists c. split; [exact Hc |].
    unfold DocumentSet.get. rewrite get_documents_docs, (Hinv _ _ _ Hc).
    rewrite (index_split k Hk' i). rewrite decide_True by done. exact Hd.
  - intros Hnd i d j c Hd Hc Hin.
    apply list_elem_of_lookup in Hin as [q Hq].
    destruct (Hpart j c q d Hc Hq) as [Hq' Hres].
    rewrite (NoDup_lookup _ _ _ _ Hnd Hd Hq'). by rewrite Hres.
Qed.

Lemma C9_round_robin_witness :
  exists cs,
    RoundRobin.cluster (RoundRobin.mk 3) six_docs = Ok cs
    /\ ClusterSet.size cs = 3
    /\ exists c,
         ClusterSet.get cs (4 mod 3) = Some c
         /\ DocumentSet.get (Cluster.get_documents c) (4 / 3)
            = Some {| docid := 4; doc_terms := [] |}.
Proof.
  assert (H3 : 1 <= 3) by lia.
  assert (Hne : six_docs <> []) by discriminate.
  destruct (C9_round_robin 3 six_docs H3 Hne) as (cs & Hcs & Hsz & Hin & _).
  exists cs. split; [exact Hcs |]. split; [exact Hsz |].
  apply Hin. reflexivity.
Defined.


(** * Further properties of the code *)

(** ** TermListGroup: counting document frequencies *)

Section TermFrequencies.

Implicit Types (g : TermListGroup) (t : string) (d : Document).

Lemma occurrences_cons t t0 (l : list string) :
  occurrences t (t0 :: l)
  = (if decide (t0 = t) then 1 else 0) + occurrences t l.
Proof.
  unfold occurrences. rewrite filter_cons. by destruct (decide (t0 = t)).
Qed.

Lemma occurrences_NoDup t (l : list string) :
  NoDup l -> occurrences t l = if decide (t ∈ l) then 1 else 0.
Proof.
  intros Hnd. unfold occurrences. destruct (decide (t ∈ l)) as [Hin | Hout].
  - by apply filter_eq_once.
  - by rewrite filter_eq_absent.
Qed.

Lemma freq_count_term g t0 t :
  TermListGroup.freq (TermListGroup.count_term g t0) t
  = (if decide (t0 = t) then 1 else 0) + TermListGroup.freq g t.
Proof.
  rewrite !freq_lookup. unfold TermListGroup.count_term.
  destruct (decide (t0 = t)) as [-> | Hne].
  - destruct (termfreq g !! t) as [n |] eqn:Hg; simpl;
      rewrite lookup_insert_eq; simpl; lia.
  - destruct (termfreq g !! t0); simpl; by rewrite lookup_insert_ne.
Qed.

Lemma docs_num_count_term g t0 :
  docs_num (TermListGroup.count_term g t0) = docs_num g.
Proof. unfold TermListGroup.count_term. by destruct (termfreq g !! t0). Qed.

Lemma freq_count_terms (l : list string) : forall g t,
  TermListGroup.freq (foldl TermListGroup.count_term g l) t
  = occurrences t l + TermListGroup.freq g t.
Proof.
  induction l as [| t0 l IH]; intros g t; [done |].
  cbn [foldl]. rewrite IH, freq_count_term, occurrences_cons. lia.
Qed.

Lemma docs_num_count_terms (l : list string) : forall g,
  docs_num (foldl TermListGroup.count_term g l) = docs_num g.
Proof.
  induction l as [| t0 l IH]; intros g; [done |].
  cbn [foldl]. by rewrite IH, docs_num_count_term.
Qed.

Lemma freq_add_document d g t :
  TermListGroup.freq (TermListGroup.add_document d g) t
  = occurrences t (doc_term_names d) + TermListGroup.freq g t.
Proof. apply freq_count_terms. Qed.

Lemma freq_add_documents_list (ds : list Document) : forall g t,
  TermListGroup.freq
    (foldl (fun g d => TermListGroup.add_document d g) g ds) t
  = total_occurrences t ds + TermListGroup.freq g t.
Proof.
  induction ds as [| d ds IH]; intros g t; [done |].
  cbn [foldl]. rewrite IH, freq_add_document. simpl. lia.
Qed.

(** The loop of [add_documents] visits the documents from [index] up to
    [maxitems], and leaves the MSet of the source alone. *)
Lemma add_documents_loop_scan (fuel : nat) : forall (s : MSetDocumentSource) g,
  maxitems s <= length (mset s) ->
  fuel = maxitems s - index s ->
  (TermListGroup.add_documents_loop fuel s g).2
  = foldl (fun g d => TermListGroup.add_document d g) g
          (drop (index s) (take (maxitems s) (mset s)))
  /\ mset (TermListGroup.add_documents_loop fuel s g).1 = mset s.
Proof.
  induction fuel as [| fuel IH]; intros s g Hmax Hfuel.
  - simpl. by rewrite drop_ge by (rewrite length_take; lia).
  - simpl. unfold MSetDocumentSource.at_end.
    destruct (Nat.leb_spec (maxitems s) (index s)) as [Hle | Hlt]; [lia |].
    destruct (lookup_lt_is_Some_2 (mset s) (index s) ltac:(lia)) as [d Hd].
    rewrite Hd.
    destruct (IH {| mset := mset s; maxitems := maxitems s;
                    index := S (index s) |}
                 (TermListGroup.add_document d g)) as [H1 H2];
      [done | simpl; lia |].
    split; [| exact H2]. rewrite H1. simpl.
    assert (Ht : take (maxitems s) (mset s) !! index s = Some d)
      by (rewrite lookup_take_lt by lia; done).
    by rewrite (drop_S _ _ _ Ht).
Qed.

Lemma add_documents_scan (s : MSetDocumentSource) g :
  maxitems s <= length (mset s) ->
  docs_num (TermListGroup.add_documents s g) = length (mset s)
  /\ forall t,
       TermListGroup.freq (TermListGroup.add_documents s g) t
       = total_occurrences t (drop (index s) (take (maxitems s) (mset s)))
         + TermListGroup.freq g t.
Proof.
  intros Hmax. unfold TermListGroup.add_documents.
  destruct (add_documents_loop_scan (maxitems s - index s) s g Hmax eq_refl)
    as [H1 H2].
  destruct (TermListGroup.add_documents_loop (maxitems s - index s) s g)
    as [s' g'] eqn:Hloop.
  simpl in *. split.
  - unfold MSetDocumentSource.size. by rewrite H2.
  - intros t. rewrite <- freq_add_documents_list, <- H1.
    by rewrite !freq_lookup.
Qed.

Lemma total_occurrences_NoDup t (ds : list Document) :
  Forall (fun d => NoDup (doc_term_names d)) ds ->
  total_occurrences t ds = docs_with_term t ds.
Proof.
  induction 1 as [| d ds Hd _ IH]; [done |].
  simpl. rewrite IH, (occurrences_NoDup _ _ Hd).
  unfold docs_with_term. rewrite filter_cons.
  by destruct (decide (t ∈ doc_term_names d)).
Qed.

Lemma docs_with_term_le t (ds : list Document) :
  docs_with_term t ds <= length ds.
Proof. apply length_filter. Qed.

Lemma docs_with_term_pos t (ds : list Document) d :
  d ∈ ds -> t ∈ doc_term_names d -> 1 <= docs_with_term t ds.
Proof.
  intros Hd Ht. unfold docs_with_term.
  assert (H : d ∈ filter (fun d => t ∈ doc_term_names d) ds)
    by (by apply list_elem_of_filter).
  destruct (filter _ ds); [by apply elem_of_nil in H | simpl; lia].
Qed.

Lemma docs_with_term_all t (ds : list Document) :
  Forall (fun d => t ∈ doc_term_names d) ds ->
  docs_with_term t ds = length ds.
Proof.
  induction 1 as [| d ds Hd _ IH]; [done |].
  unfold docs_with_term in *. rewrite filter_cons, decide_True by done.
  simpl. by rewrite IH.
Qed.

Lemma freq_new t : TermListGroup.freq TermListGroup.new t = 0.
Proof. rewrite freq_lookup. simpl. by rewrite lookup_empty. Qed.

(** The frequencies of an MSet of documents with distinct terms. *)
Lemma tlg_of_freq (ms : MSet) t :
  Forall (fun d => NoDup (doc_term_names d)) ms ->
  TermListGroup.get_doccount (tlg_of ms) = length ms
  /\ TermListGroup.freq (tlg_of ms) t = docs_with_term t ms.
Proof.
  intros Hnd. unfold tlg_of, TermListGroup.get_doccount.
  destruct (add_documents_scan (MSetDocumentSource.new ms) TermListGroup.new)
    as [H1 H2]; [done |].
  split; [exact H1 |]. rewrite H2. simpl.
  rewrite drop_0, firstn_all, freq_new, Nat.add_0_r.
  by apply total_occurrences_NoDup.
Qed.

End TermFrequencies.

(** X1: [TermListGroup::add_document] raises the count of a term by the
    number of entries the document's term iterator yields for it, whether
    the term was known or not, and leaves the document count alone. *)
Theorem X1_add_document (d : Document) (g : TermListGroup) (t : string) :
  TermListGroup.freq (TermListGroup.add_document d g) t
  = TermListGroup.freq g t + occurrences t (doc_term_names d)
  /\ TermListGroup.get_doccount (TermListGroup.add_document d g)
     = TermListGroup.get_doccount g.
Proof.
  split.
  - rewrite freq_add_document. lia.
  - apply docs_num_count_terms.
Qed.

(** X2: [TermListGroup::add_documents] on a source limited to [m] items
    counts the terms of the first [m] documents of the MSet only, yet sets
    the document count to the size of the whole MSet; on an unlimited
    source it counts the terms of all documents. *)
Theorem X2_add_documents (ms : MSet) (m : nat) (g : TermListGroup)
    (t : string) :
  TermListGroup.get_doccount
    (TermListGroup.add_documents (MSetDocumentSource.new_max ms m) g)
  = length ms
  /\ TermListGroup.freq
       (TermListGroup.add_documents (MSetDocumentSource.new_max ms m) g) t
     = TermListGroup.freq g t + total_occurrences t (take m ms)
  /\ TermListGroup.get_doccount
       (TermListGroup.add_documents (MSetDocumentSource.new ms) g)
     = length ms
  /\ TermListGroup.freq
       (TermListGroup.add_documents (MSetDocumentSource.new ms) g) t
     = TermListGroup.freq g t + total_occurrences t ms.
Proof.
  assert (Hmax : maxitems (MSetDocumentSource.new_max ms m) <= length ms).
  { simpl. destruct (Nat.ltb_spec (length ms) m); lia. }
  assert (Htake : take (maxitems (MSetDocumentSource.new_max ms m)) ms
                  = take m ms).
  { simpl. destruct (Nat.ltb_spec (length ms) m); [| done].
    by rewrite !take_ge by lia. }
  destruct (add_documents_scan (MSetDocumentSource.new_max ms m) g Hmax)
    as [H1 H2].
  destruct (add_documents_scan (MSetDocumentSource.new ms) g) as [H3 H4];
    [done |].
  unfold TermListGroup.get_doccount.
  split; [exact H1 |]. split; [| split; [exact H3 |]].
  - rewrite H2. change (mset (MSetDocumentSource.new_max ms m)) with ms.
    rewrite Htake. simpl. rewrite drop_0. lia.
  - rewrite H4. simpl. rewrite drop_0, firstn_all. lia.
Qed.

(** X3: for an MSet whose documents each list a term at most once, the
    group built from the whole MSet answers for every term the number of
    documents that have it: at most the document count, and at least 1 for
    a term of a document of the MSet. *)
Theorem X3_termfreq_bounds (ms : MSet) (t : string) :
  Forall (fun d => NoDup (doc_term_names d)) ms ->
  TermListGroup.freq (tlg_of ms) t = docs_with_term t ms
  /\ TermListGroup.freq (tlg_of ms) t <= TermListGroup.get_doccount (tlg_of ms)
  /\ forall d, d ∈ ms -> t ∈ doc_term_names d ->
               1 <= TermListGroup.freq (tlg_of ms) t.
Proof.
  intros Hnd. destruct (tlg_of_freq ms t Hnd) as [HN Hf].
  rewrite HN, Hf. split; [done |]. split.
  - apply docs_with_term_le.
  - intros d Hd Ht. by apply (docs_with_term_pos t ms d).
Qed.

Lemma two_docs_NoDup : Forall (fun d => NoDup (doc_term_names d)) two_docs.
Proof.
  repeat constructor; unfold doc_term_names; simpl;
    rewrite ?list_elem_of_In; simpl; intuition discriminate.
Qed.

Lemma X3_termfreq_bounds_witness :
  TermListGroup.freq (tlg_of two_docs) "b" = docs_with_term "b" two_docs
  /\ 1 <= TermListGroup.freq (tlg_of two_docs) "b".
Proof.
  split.
  - apply (X3_termfreq_bounds two_docs "b" two_docs_NoDup).
  - apply (proj2 (proj2 (X3_termfreq_bounds two_docs "b" two_docs_NoDup))
             doc_ab).
    + right. left.
    + right. left.
Defined.

(** X4: [TermListGroup::get_termfreq] answers the count of the term, 0
    for a term it has not seen, which it then records with count 0; no
    count it answers afterwards and not the document count is changed by
    the call, and a second call changes nothing. *)
Theorem X4_get_termfreq (g : TermListGroup) (t : string) :
  (TermListGroup.get_termfreq t g).1 = default 0 (termfreq g !! t)
  /\ termfreq (TermListGroup.get_termfreq t g).2 !! t
     = Some (default 0 (termfreq g !! t))
  /\ (forall t', TermListGroup.freq (TermListGroup.get_termfreq t g).2 t'
                 = TermListGroup.freq g t')
  /\ TermListGroup.get_doccount (TermListGroup.get_termfreq t g).2
     = TermListGroup.get_doccount g
  /\ TermListGroup.get_termfreq t (TermListGroup.get_termfreq t g).2
     = TermListGroup.get_termfreq t g.
Proof.
  split; [| split; [| split; [| split]]].
  - apply freq_lookup.
  - unfold TermListGroup.get_termfreq.
    destruct (termfreq g !! t) eqn:Ht; simpl; [done |].
    by rewrite lookup_insert_eq.
  - intros t'. apply freq_get_termfreq.
  - apply doccount_get_termfreq.
  - unfold TermListGroup.get_termfreq.
    destruct (termfreq g !! t) eqn:Ht; simpl.
    + by rewrite Ht.
    + by rewrite lookup_insert_eq.
Qed.

(** ** Points of the documents of one MSet *)

Section PointsOfMSet.

Lemma initialize_loop_Forall (P : double -> Prop) (N : nat)
    (l : list (string * nat)) :
  forall (p : PointType) (g : TermListGroup),
    (forall e, e ∈ l -> P (entry_weight N g e)) ->
    map_Forall (fun _ => P) (values p) ->
    map_Forall (fun _ => P)
               (values (foldl (Point.initialize_step N) (p, g) l).1).
Proof.
  induction l as [| e l IH]; intros p g Hw Hp; [done |].
  cbn [foldl]. rewrite initialize_step_eq. apply IH.
  - intros e' He'. rewrite (entry_weight_ext N g).
    + apply Hw. by right.
    + intros t. apply freq_get_termfreq.
  - simpl. apply map_Forall_insert_2; [| done]. apply Hw. by left.
Qed.

Lemma weight_nonneg (N wdf df : nat) :
  0 < wdf -> 0 < df -> df <= N -> nonneg_finite (Point.weight N wdf df).
Proof.
  intros Hwdf Hdf HN. rewrite weight_finite by lia.
  eexists. split; [done |].
  pose proof (tf_pos wdf Hwdf) as Htf.
  assert (Hdf' : (0 < INR df)%R) by (by apply INR_pos).
  assert (Hle : (INR df <= INR N)%R) by (by apply le_INR).
  assert (H1 : (1 <= INR N / INR df)%R).
  { apply (Rmult_le_reg_r (INR df)); [done |].
    unfold Rdiv. rewrite Rmult_assoc, Rinv_l by lra. lra. }
  assert (Hln : (0 <= ln (INR N / INR df))%R).
  { rewrite <- ln_1. destruct (Req_dec_T 1 (INR N / INR df)) as [<- | Hne];
      [lra |]. left. apply ln_increasing; lra. }
  apply Rmult_le_pos; lra.
Qed.

Lemma weight_all_docs (N wdf : nat) :
  0 < wdf -> 0 < N -> Point.weight N wdf N = Double.zero.
Proof.
  intros Hwdf HN. rewrite weight_finite by lia.
  unfold Double.zero. f_equal.
  assert (Hn : (0 < INR N)%R) by (by apply INR_pos).
  replace (INR N / INR N)%R with 1%R by (field; lra).
  rewrite ln_1. lra.
Qed.

Lemma point_of_base (tlg : TermListGroup) (d : Document) :
  point_base (point_of tlg d)
  = (foldl (Point.initialize_step (TermListGroup.get_doccount tlg))
           (PointType.new, tlg) (doc_terms d)).1.
Proof. unfold point_of. by rewrite initialize_base. Qed.

Lemma point_of_terms (tlg : TermListGroup) (d : Document) :
  PointType.terms (point_base (point_of tlg d)) = doc_term_names d.
Proof.
  rewrite point_of_base.
  destruct (initialize_loop (TermListGroup.get_doccount tlg) (doc_terms d)
              PointType.new tlg) as (_ & Htl & _).
  unfold PointType.terms. rewrite Htl. simpl.
  by rewrite <- list_fmap_compose.
Qed.

Lemma point_of_contains (tlg : TermListGroup) (d : Document) (t : string) :
  PointType.contains (point_base (point_of tlg d)) t = true
  <-> t ∈ doc_term_names d.
Proof.
  rewrite point_of_base. unfold PointType.contains.
  destruct (initialize_loop (TermListGroup.get_doccount tlg) (doc_terms d)
              PointType.new tlg) as (_ & _ & _ & Hout & _).
  split.
  - intros H. destruct (decide (t ∈ doc_term_names d)) as [| Hnotin]; [done |].
    rewrite (Hout t Hnotin) in H. simpl in H. by rewrite lookup_empty in H.
  - intros Ht.
    destruct (last_entry _ _ Ht) as (l1 & e & l2 & Hl & <- & Hlast).
    by rewrite (initialize_loop_last _ _ PointType.new tlg _ _ _ Hl Hlast).
Qed.

End PointsOfMSet.

(** X5: [Point::initialize] on a new Point leaves a point that contains
    exactly the terms of the document, with the terms of its termlist in
    the document's order; for a document that lists each term once the
    termlist names every stored term once. *)
Theorem X5_initialize_terms (tlg : TermListGroup) (d : Document) :
  PointType.terms (point_base (point_of tlg d)) = doc_term_names d
  /\ PointType.termlist_size (point_base (point_of tlg d))
     = length (doc_terms d)
  /\ (forall t, PointType.contains (point_base (point_of tlg d)) t = true
                <-> t ∈ doc_term_names d)
  /\ (NoDup (doc_term_names d) ->
      termlist_lists_keys (point_base (point_of tlg d))).
Proof.
  split; [apply point_of_terms |]. split; [| split].
  - pose proof (point_of_terms tlg d) as H.
    apply (f_equal length) in H. unfold PointType.terms, doc_term_names in H.
    by rewrite !length_fmap in H.
  - apply point_of_contains.
  - intros Hnd. split.
    + by rewrite point_of_terms.
    + intros t. by rewrite point_of_terms, point_of_contains.
Qed.

Lemma X5_initialize_terms_witness :
  NoDup (doc_term_names doc_ab)
  /\ termlist_lists_keys (point_base (point_of (tlg_of two_docs) doc_ab)).
Proof.
  assert (H : NoDup (doc_term_names doc_ab)).
  { pose proof two_docs_NoDup as H. apply Forall_cons in H as [_ H].
    by apply Forall_cons in H as [H _]. }
  split; [exact H |].
  apply (X5_initialize_terms (tlg_of two_docs) doc_ab). exact H.
Defined.

(** X6: when the term frequencies are those of an MSet (whose documents
    list each term once) and the document is one of that MSet, every
    weight [Point::initialize] stores is finite and not negative: the
    division by the document frequency never meets 0 there. *)
Theorem X6_weights_nonneg (ms : MSet) (d : Document) (t : string) :
  Forall (fun d => NoDup (doc_term_names d)) ms ->
  d ∈ ms ->
  nonneg_finite (PointType.get_value (point_base (point_of (tlg_of ms) d)) t).
Proof.
  intros Hnd Hd.
  assert (Hall : map_Forall (fun _ => nonneg_finite)
                   (values (point_base (point_of (tlg_of ms) d)))).
  { rewrite point_of_base. apply initialize_loop_Forall.
    - intros e He. unfold entry_weight.
      assert (Ht : e.1 ∈ doc_term_names d)
        by (apply list_elem_of_fmap; by exists e).
      destruct (tlg_of_freq ms e.1 Hnd) as [-> ->].
      apply weight_nonneg; [lia | | apply docs_with_term_le].
      by apply (docs_with_term_pos e.1 ms d).
    - simpl. apply map_Forall_empty. }
  unfold PointType.get_value.
  destruct (values (point_base (point_of (tlg_of ms) d)) !! t) as [w |] eqn:Hw.
  - exact (Hall t w Hw).
  - exists 0%R. split; [done | lra].
Qed.

Lemma X6_weights_nonneg_witness :
  nonneg_finite
    (PointType.get_value (point_base (point_of (tlg_of two_docs) doc_ab)) "b").
Proof.
  apply (X6_weights_nonneg two_docs doc_ab "b" two_docs_NoDup).
  right. left.
Defined.

(** X7: a term that every document of the MSet has gets the weight 0 in
    the point of each of these documents. *)
Theorem X7_weight_of_common_term (ms : MSet) (d : Document) (t : string) :
  Forall (fun d => NoDup (doc_term_names d)) ms ->
  Forall (fun d => t ∈ doc_term_names d) ms ->
  d ∈ ms ->
  PointType.contains (point_base (point_of (tlg_of ms) d)) t = true
  /\ PointType.get_value (point_base (point_of (tlg_of ms) d)) t
     = Double.zero.
Proof.
  intros Hnd Hall Hd.
  assert (Ht : t ∈ doc_term_names d).
  { rewrite Forall_forall in Hall. by apply Hall. }
  split; [by apply point_of_contains |].
  destruct (last_entry _ _ Ht) as (l1 & e & l2 & Hl & <- & Hlast).
  rewrite point_of_base.
  rewrite (get_value_lookup _ _ _
             (initialize_loop_last _ _ PointType.new _ _ _ _ Hl Hlast)).
  unfold entry_weight. destruct (tlg_of_freq ms e.1 Hnd) as [-> ->].
  rewrite (docs_with_term_all _ _ Hall).
  apply weight_all_docs; [lia |].
  destruct ms; [by apply elem_of_nil in Hd | simpl; lia].
Qed.

Lemma X7_weight_of_common_term_witness :
  PointType.get_value (point_base (point_of (tlg_of two_docs) doc_ab)) "a"
  = Double.zero.
Proof.
  apply (X7_weight_of_common_term two_docs doc_ab "a" two_docs_NoDup).
  - repeat constructor.
  - right. left.
Defined.

(** ** PointType: add_value, set_value and the termlist *)

Section Listing.

Implicit Types (p c : PointType) (t : string) (w : double).

Lemma contains_lookup p t :
  PointType.contains p t = true <-> is_Some (values p !! t).
Proof.
  unfold PointType.contains. destruct (values p !! t) eqn:E.
  - split; [by eexists | done].
  - split; [done | by intros [? ?]].
Qed.

Lemma contains_add_value t w p t' :
  PointType.contains (PointType.add_value t w p) t'
  = if decide (t' = t) then true else PointType.contains p t'.
Proof.
  unfold PointType.add_value, PointType.contains.
  destruct (decide (t' = t)) as [-> | Hne].
  - destruct (values p !! t); cbn [values]; by rewrite lookup_insert_eq.
  - destruct (values p !! t); cbn [values]; by rewrite lookup_insert_ne.
Qed.

Lemma terms_add_value t w p :
  PointType.terms (PointType.add_value t w p)
  = if PointType.contains p t then PointType.terms p
    else PointType.terms p ++ [t].
Proof.
  unfold PointType.add_value, PointType.contains, PointType.terms.
  destruct (values p !! t); cbn [termlist]; [done |].
  by rewrite fmap_app.
Qed.

Lemma lists_keys_add_value t w p :
  termlist_lists_keys p -> termlist_lists_keys (PointType.add_value t w p).
Proof.
  intros [Hnd Hkeys]. unfold termlist_lists_keys.
  rewrite terms_add_value.
  destruct (PointType.contains p t) eqn:Hc.
  - split; [done |]. intros t'. rewrite contains_add_value.
    destruct (decide (t' = t)) as [-> | Hne]; [| apply Hkeys].
    split; [done |]. intros _. by apply Hkeys.
  - assert (Hnotin : t ∉ PointType.terms p).
    { intros Hin. apply Hkeys in Hin. congruence. }
    split.
    + apply NoDup_app. split; [done |]. split; [| apply NoDup_singleton].
      intros x Hx Hx'. apply list_elem_of_singleton in Hx' as ->. done.
    + intros t'. rewrite contains_add_value, elem_of_app, list_elem_of_singleton.
      destruct (decide (t' = t)) as [-> | Hne].
      * split; [done | by right].
      * rewrite Hkeys. split; [by intros [? | ?] | by left].
Qed.

End Listing.

(** X8: [PointType::add_value(t, w)] makes the weight of [t] the sum of
    its former weight (0 if it had none) and [w], and [t] a term of the
    point; it leaves the weight and presence of every other term alone,
    appends [(t, 1)] to the termlist only if [t] had no weight, and keeps
    a termlist that names each stored term once in that state. *)
Theorem X8_add_value (t : string) (w : double) (p : PointType) :
  PointType.get_value (PointType.add_value t w p) t
  = PointType.get_value p t +d w
  /\ PointType.contains (PointType.add_value t w p) t = true
  /\ (forall t', t' <> t ->
        PointType.get_value (PointType.add_value t w p) t'
        = PointType.get_value p t'
        /\ PointType.contains (PointType.add_value t w p) t'
           = PointType.contains p t')
  /\ termlist (PointType.add_value t w p)
     = (if PointType.contains p t then termlist p
        else termlist p ++ [mkWdf t 1])
  /\ (termlist_lists_keys p ->
      termlist_lists_keys (PointType.add_value t w p)).
Proof.
  split; [| split; [| split; [| split]]].
  - rewrite get_value_add_value. by rewrite decide_True.
  - rewrite contains_add_value. by rewrite decide_True.
  - intros t' Hne. rewrite get_value_add_value, contains_add_value.
    by rewrite !decide_False.
  - unfold PointType.add_value, PointType.contains.
    by destruct (values p !! t).
  - apply lists_keys_add_value.
Qed.

Lemma new_lists_keys : termlist_lists_keys PointType.new.
Proof.
  split; [apply NoDup_nil_2 |]. intros t. split.
  - intros H. by apply elem_of_nil in H.
  - unfold PointType.contains. simpl. by rewrite lookup_empty.
Qed.

Lemma X8_add_value_witness :
  termlist_lists_keys (PointType.add_value "a" Double.one PointType.new).
Proof.
  apply (X8_add_value "a" Double.one PointType.new). exact new_lists_keys.
Defined.

(** X9: [PointType::set_value(t, w)] makes [w] the weight of [t] and
    leaves every other weight, the magnitude and the termlist alone; so
    for a term the termlist does not name, the point then contains a term
    that an iteration over its termlist does not visit. *)
Theorem X9_set_value (t : string) (w : double) (p : PointType) :
  PointType.get_value (PointType.set_value t w p) t = w
  /\ PointType.contains (PointType.set_value t w p) t = true
  /\ (forall t', t' <> t ->
        PointType.get_value (PointType.set_value t w p) t'
        = PointType.get_value p t')
  /\ termlist (PointType.set_value t w p) = termlist p
  /\ (t ∉ PointType.terms p ->
      ~ termlist_lists_keys (PointType.set_value t w p)).
Proof.
  unfold PointType.get_value, PointType.contains, PointType.set_value.
  cbn [values termlist].
  split; [by rewrite lookup_insert_eq |].
  split; [by rewrite lookup_insert_eq |].
  split; [intros t' Hne; by rewrite lookup_insert_ne |].
  split; [done |].
  intros Hnotin [_ Hkeys]. apply Hnotin.
  apply (Hkeys t). unfold PointType.contains. cbn [values].
  by rewrite lookup_insert_eq.
Qed.

Lemma X9_set_value_witness :
  ~ termlist_lists_keys (PointType.set_value "a" Double.one PointType.new).
Proof.
  apply (X9_set_value "a" Double.one PointType.new).
  apply not_elem_of_nil.
Defined.

(** ** Centroid::set_to_point *)

Section SetToPoint.

Implicit Types (p : Point) (c : Centroid) (t : string).

Lemma set_to_point_loop p (l : list string) : forall c,
  let c' := foldl (Centroid.set_to_point_step p) c l in
  termlist c' = termlist c ++ ((fun t => mkWdf t 1) <$> l)
  /\ magnitude c'
     = foldl (fun m t => m +d PointType.get_value (point_base p) t
                            *d PointType.get_value (point_base p) t)
             (magnitude c) l
  /\ forall t, PointType.get_value c' t
               = if decide (t ∈ l) then PointType.get_value (point_base p) t
                 else PointType.get_value c t.
Proof.
  induction l as [| t0 l IH]; intros c c'; subst c'.
  - cbn [foldl]. split; [by rewrite fmap_nil, app_nil_r |]. split; [done |].
    intros t. rewrite decide_False; [done | apply not_elem_of_nil].
  - cbn [foldl].
    destruct (IH (Centroid.set_to_point_step p c t0)) as (Htl & Hm & Hv).
    split; [| split].
    + rewrite Htl. simpl. by rewrite <- app_assoc.
    + by rewrite Hm.
    + intros t. rewrite Hv.
      destruct (decide (t ∈ l)) as [Hin | Hnotin].
      * rewrite decide_True; [done | by right].
      * unfold Centroid.set_to_point_step, PointType.get_value at 1.
        cbn [values]. destruct (decide (t = t0)) as [-> | Hne].
        -- rewrite lookup_insert_eq. rewrite decide_True; [done | by left].
        -- rewrite lookup_insert_ne by done.
           rewrite decide_False; [done |].
           intros H. apply elem_of_cons in H as [? | ?]; done.
Qed.

Lemma foldl_agree {A B} (f f' : A -> B -> A) (l : list B) : forall a,
  (forall x y, y ∈ l -> f x y = f' x y) -> foldl f a l = foldl f' a l.
Proof.
  induction l as [| y l IH]; intros a H; [done |].
  simpl. rewrite H by by left. apply IH. intros x y' Hy. apply H. by right.
Qed.

End SetToPoint.

(** X10: [Centroid::set_to_point(p)] gives the centroid, for every term
    of [p]'s termlist, the weight [p] has for it, and keeps the weight of
    every other term; the magnitude restarts from 0 and gets the squares
    of these weights, one for each entry of [p]'s termlist; the termlist
    is not cleared: an entry [(t, 1)] is appended for each entry of
    [p]'s. *)
Theorem X10_set_to_point (p : Point) (c : Centroid) :
  (forall t,
     PointType.get_value (Centroid.set_to_point p c) t
     = if decide (t ∈ PointType.terms (point_base p))
       then PointType.get_value (point_base p) t
       else PointType.get_value c t)
  /\ termlist (Centroid.set_to_point p c)
     = termlist c
       ++ ((fun t => mkWdf t 1) <$> PointType.terms (point_base p))
  /\ PointType.get_magnitude (Centroid.set_to_point p c)
     = foldl (fun m t => m +d PointType.get_value (point_base p) t
                            *d PointType.get_value (point_base p) t)
             Double.zero (PointType.terms (point_base p)).
Proof.
  unfold Centroid.set_to_point.
  destruct (set_to_point_loop p (PointType.terms (point_base p))
              {| values := values c; magnitude := Double.zero;
                 termlist := termlist c |}) as (Htl & Hm & Hv).
  split; [| split].
  - intros t. rewrite Hv. by destruct (decide _).
  - exact Htl.
  - exact Hm.
Qed.

(** X11: for the point of a document that lists each term once,
    [set_to_point] on a new centroid makes the centroid's weights and
    magnitude those of the point. *)
Theorem X11_set_to_point_of_document (tlg : TermListGroup) (d : Document) :
  NoDup (doc_term_names d) ->
  (forall t,
     PointType.get_value
       (Centroid.set_to_point (point_of tlg d) Centroid.new) t
     = PointType.get_value (point_base (point_of tlg d)) t)
  /\ PointType.get_magnitude
       (Centroid.set_to_point (point_of tlg d) Centroid.new)
     = PointType.get_magnitude (point_base (point_of tlg d))
  /\ PointType.terms (Centroid.set_to_point (point_of tlg d) Centroid.new)
     = PointType.terms (point_base (point_of tlg d)).
Proof.
  intros Hnd.
  destruct (set_to_point_loop (point_of tlg d)
              (PointType.terms (point_base (point_of tlg d)))
              {| values := values Centroid.new; magnitude := Double.zero;
                 termlist := termlist Centroid.new |}) as (Htl & Hm & Hv).
  split; [| split].
  - intros t. unfold Centroid.set_to_point. rewrite Hv.
    destruct (decide _) as [| Hnotin]; [done |].
    rewrite point_of_terms in Hnotin.
    assert (Hc : PointType.contains (point_base (point_of tlg d)) t <> true)
      by (by rewrite point_of_contains).
    unfold PointType.get_value, PointType.contains in *. simpl.
    rewrite lookup_empty. by destruct (values _ !! t).
  - unfold Centroid.set_to_point, PointType.get_magnitude. rewrite Hm.
    cbn [magnitude]. rewrite point_of_terms. unfold doc_term_names.
    rewrite foldl_fmap.
    destruct (initialize_loop (TermListGroup.get_doccount tlg) (doc_terms d)
                PointType.new tlg) as (_ & _ & Hmag & _ & Hin).
    rewrite point_of_base, Hmag. apply foldl_agree.
    intros m e He. rewrite <- point_of_base.
    by rewrite (get_value_lookup _ _ _
                  (eq_ind_r (fun b => values b !! e.1 = Some _)
                            (Hin Hnd e He) (point_of_base tlg d))).
  - unfold Centroid.set_to_point, PointType.terms at 1. rewrite Htl. simpl.
    rewrite <- list_fmap_compose. apply list_fmap_id.
Qed.

Lemma X11_set_to_point_of_document_witness :
  PointType.get_magnitude
    (Centroid.set_to_point (point_of (tlg_of two_docs) doc_ab) Centroid.new)
  = PointType.get_magnitude (point_base (point_of (tlg_of two_docs) doc_ab)).
Proof.
  apply (X11_set_to_point_of_document (tlg_of two_docs) doc_ab).
  pose proof two_docs_NoDup as H. apply Forall_cons in H as [_ H].
  by apply Forall_cons in H as [H _].
Defined.

(** ** Cluster::recalculate, beyond the weights *)

Section RecalculateMore.

Implicit Types (c : Cluster) (cen : Centroid) (t : string) (m : double).

Lemma add_value_with_magnitude t w m cen :
  PointType.add_value t w (with_magnitude m cen)
  = with_magnitude m (PointType.add_value t w cen).
Proof.
  unfold PointType.add_value, with_magnitude. cbn [values].
  by destruct (values cen !! t).
Qed.

Lemma add_point_terms_with_magnitude m (p : Point) cen :
  Cluster.add_point_terms (with_magnitude m cen) p
  = with_magnitude m (Cluster.add_point_terms cen p).
Proof.
  unfold Cluster.add_point_terms.
  generalize (PointType.terms (point_base p)) as l. intros l. revert cen.
  induction l as [| t l IH]; intros cen; [done |].
  cbn [foldl]. by rewrite add_value_with_magnitude, IH.
Qed.

Lemma add_points_with_magnitude m (ps : list Point) : forall cen,
  foldl Cluster.add_point_terms (with_magnitude m cen) ps
  = with_magnitude m (foldl Cluster.add_point_terms cen ps).
Proof.
  induction ps as [| p ps IH]; intros cen; [done |].
  cbn [foldl]. by rewrite add_point_terms_with_magnitude, IH.
Qed.

(** The centroid [recalculate] builds owes nothing to the one before. *)
Lemma recalculate_centroid c :
  centroid (Cluster.recalculate c)
  = Centroid.recalc_magnitude
      (Centroid.divide (Z.of_nat (Cluster.size c))
         (foldl Cluster.add_point_terms PointType.new (cluster_docs c))).
Proof.
  unfold Cluster.recalculate. cbn [centroid].
  change (Centroid.clear (centroid c))
    with (with_magnitude (magnitude (centroid c)) PointType.new).
  by rewrite add_points_with_magnitude.
Qed.

Lemma recalculate_eq c :
  Cluster.recalculate c
  = {| centroid :=
         Centroid.recalc_magnitude
           (Centroid.divide (Z.of_nat (Cluster.size c))
              (foldl Cluster.add_point_terms PointType.new (cluster_docs c)));
       cluster_docs := cluster_docs c |}.
Proof. by rewrite <- recalculate_centroid. Qed.

Lemma recalculate_no_points c :
  cluster_docs c = [] -> Cluster.recalculate c = Cluster.new.
Proof.
  intros Hdocs. rewrite recalculate_eq. unfold Cluster.size.
  rewrite Hdocs. cbn [foldl]. unfold Cluster.new. f_equal.
Qed.

Lemma add_points_lists_keys (ps : list Point) : forall cen,
  termlist_lists_keys cen ->
  termlist_lists_keys (foldl Cluster.add_point_terms cen ps).
Proof.
  induction ps as [| p ps IH]; intros cen Hcen; [done |].
  cbn [foldl]. apply IH. unfold Cluster.add_point_terms.
  generalize (PointType.terms (point_base p)) as l. intros l.
  revert cen Hcen. induction l as [| t l IHl]; intros cen Hcen; [done |].
  cbn [foldl]. by apply IHl, lists_keys_add_value.
Qed.

Lemma contains_add_terms (v : string -> double) (l : list string) :
  forall cen t,
    PointType.contains
      (foldl (fun cen t' => PointType.add_value t' (v t') cen) cen l) t
    = true
    <-> PointType.contains cen t = true \/ t ∈ l.
Proof.
  induction l as [| t0 l IH]; intros cen t.
  - simpl. split; [by left |]. intros [H | H]; [done |].
    by apply elem_of_nil in H.
  - cbn [foldl]. rewrite IH, contains_add_value, elem_of_cons.
    destruct (decide (t = t0)) as [-> | Hne]; [by intuition |].
    by intuition.
Qed.

Lemma contains_add_points (ps : list Point) : forall cen t,
  PointType.contains (foldl Cluster.add_point_terms cen ps) t = true
  <-> PointType.contains cen t = true
      \/ exists p, p ∈ ps /\ t ∈ PointType.terms (point_base p).
Proof.
  induction ps as [| p ps IH]; intros cen t.
  - simpl. split; [by left |]. intros [H | (p & Hp & _)]; [done |].
    by apply elem_of_nil in Hp.
  - cbn [foldl]. rewrite IH. unfold Cluster.add_point_terms.
    rewrite contains_add_terms. split.
    + intros [[H | H] | (q & Hq & Ht)].
      * by left.
      * right. exists p. split; [by left | done].
      * right. exists q. split; [by right | done].
    + intros [H | (q & Hq & Ht)]; [by left; left |].
      apply elem_of_cons in Hq as [-> | Hq].
      * left. by right.
      * right. by exists q.
Qed.

Lemma wdf_add_points (ps : list Point) : forall cen,
  Forall (fun e => wdf e = 1) (termlist cen) ->
  Forall (fun e => wdf e = 1)
         (termlist (foldl Cluster.add_point_terms cen ps)).
Proof.
  induction ps as [| p ps IH]; intros cen Hcen; [done |].
  cbn [foldl]. apply IH. unfold Cluster.add_point_terms.
  generalize (PointType.terms (point_base p)) as l. intros l.
  revert cen Hcen. induction l as [| t l IHl]; intros cen Hcen; [done |].
  cbn [foldl]. apply IHl. unfold PointType.add_value.
  destruct (values cen !! t); cbn [termlist]; [done |].
  apply Forall_app. split; [done |]. by repeat constructor.
Qed.

End RecalculateMore.

(** X12: the centroid that [Cluster::recalculate] leaves depends on the
    points of the cluster only, not on the centroid the cluster had, so
    that recalculating twice is recalculating once. *)
Theorem X12_recalculate_idempotent (c : Cluster) (cen : Centroid) :
  Cluster.recalculate (Cluster.set_centroid cen c) = Cluster.recalculate c
  /\ Cluster.recalculate (Cluster.recalculate c) = Cluster.recalculate c.
Proof.
  split.
  - by rewrite !recalculate_eq.
  - by rewrite (recalculate_eq (Cluster.recalculate c)), !recalculate_eq.
Qed.

(** X13: on a cluster without points [recalculate] leaves the centroid
    empty, with magnitude 0: the division by the size 0 meets no
    weight. *)
Theorem X13_recalculate_empty (c : Cluster) :
  Cluster.size c = 0 ->
  Cluster.get_centroid (Cluster.recalculate c) = Centroid.new
  /\ Cluster.size (Cluster.recalculate c) = 0.
Proof.
  intros Hsize. unfold Cluster.size in Hsize.
  apply length_zero_iff_nil in Hsize.
  by rewrite (recalculate_no_points c Hsize).
Qed.

Lemma X13_recalculate_empty_witness :
  Cluster.get_centroid
    (Cluster.recalculate (Cluster.set_centroid unit_centroid Cluster.new))
  = Centroid.new.
Proof.
  apply (X13_recalculate_empty (Cluster.set_centroid unit_centroid Cluster.new)).
  reflexivity.
Defined.

(** X14: after [recalculate] the centroid contains exactly the terms
    that occur in the termlist of some point of the cluster; its termlist
    names each of them once, with wdf 1. *)
Theorem X14_recalculate_terms (c : Cluster) :
  termlist_lists_keys (Cluster.get_centroid (Cluster.recalculate c))
  /\ (forall t,
        PointType.contains (Cluster.get_centroid (Cluster.recalculate c)) t
        = true
        <-> exists p, p ∈ cluster_docs c
                      /\ t ∈ PointType.terms (point_base p))
  /\ Forall (fun e => wdf e = 1)
            (termlist (Cluster.get_centroid (Cluster.recalculate c))).
Proof.
  unfold Cluster.get_centroid. rewrite recalculate_centroid.
  set (cen := foldl Cluster.add_point_terms PointType.new (cluster_docs c)).
  assert (Hc : forall t,
             PointType.contains
               (Centroid.recalc_magnitude
                  (Centroid.divide (Z.of_nat (Cluster.size c)) cen)) t
             = PointType.contains cen t).
  { intros t. unfold PointType.contains, Centroid.recalc_magnitude,
      Centroid.divide. cbn [values]. rewrite lookup_fmap.
    by destruct (values cen !! t). }
  split; [| split].
  - destruct (add_points_lists_keys (cluster_docs c) PointType.new
                new_lists_keys) as [Hnd Hk].
    split; [exact Hnd |]. intros t. rewrite Hc. apply Hk.
  - intros t. rewrite Hc. subst cen. rewrite contains_add_points.
    split; [| by right]. intros [H | H]; [| done].
    unfold PointType.contains in H. simpl in H.
    by rewrite lookup_empty in H.
  - apply (wdf_add_points (cluster_docs c) PointType.new). constructor.
Qed.

(** X15: [clear_clusters] followed by [recalculate_centroids] leaves as
    many clusters as before, each without points and with the centroid of
    a new cluster: the centroids that [clear_clusters] kept are lost. *)
Theorem X15_clear_then_recalculate (cs : ClusterSet) :
  ClusterSet.recalculate_centroids (ClusterSet.clear_clusters cs)
  = {| clusters := replicate (ClusterSet.size cs) Cluster.new |}.
Proof.
  unfold ClusterSet.recalculate_centroids, ClusterSet.clear_clusters,
    ClusterSet.size. cbn [clusters]. f_equal.
  generalize (clusters cs) as l. intros l.
  induction l as [| c l IH]; [done |].
  rewrite !fmap_cons. cbn [length replicate]. rewrite IH.
  by rewrite (recalculate_no_points (Cluster.clear c)).
Qed.

(** ** Clusters and cluster sets as containers *)

(** X16: [Cluster::get_documents] returns the documents of the points
    of the cluster, as many as the cluster has points and in the order of
    the points; a point added to the cluster adds its document at the
    end. *)
Theorem X16_get_documents (c : Cluster) (p : Point) :
  docs (Cluster.get_documents c) = Point.get_document <$> cluster_docs c
  /\ DocumentSet.size (Cluster.get_documents c) = Cluster.size c
  /\ (forall i, DocumentSet.get (Cluster.get_documents c) i
                = Point.get_document <$> Cluster.get_index c i)
  /\ Cluster.get_documents (Cluster.add_cluster p c)
     = DocumentSet.add_document (Point.get_document p)
                                (Cluster.get_documents c).
Proof.
  assert (H : forall c, docs (Cluster.get_documents c)
                        = Point.get_document <$> cluster_docs c)
    by (intros c'; apply get_documents_docs).
  split; [apply H |]. split; [| split].
  - unfold DocumentSet.size, Cluster.size. by rewrite H, length_fmap.
  - intros i. unfold DocumentSet.get, Cluster.get_index.
    by rewrite H, list_lookup_fmap.
  - pose proof (H (Cluster.add_cluster p c)) as Hp.
    destruct (Cluster.get_documents (Cluster.add_cluster p c)) as [l].
    unfold DocumentSet.add_document. simpl in *.
    by rewrite Hp, H, fmap_app.
Qed.

(** X17: [ClusterSet::add_to_cluster(x, i)] with [i] below the size
    appends [x] to the points of cluster [i], whose size grows by one and
    whose centroid stays; the other clusters and the number of clusters
    are as before. *)
Theorem X17_add_to_cluster (x : Point) (i : nat) (cs : ClusterSet) :
  i < ClusterSet.size cs ->
  ClusterSet.size (ClusterSet.add_to_cluster x i cs) = ClusterSet.size cs
  /\ (exists c,
        ClusterSet.get cs i = Some c
        /\ (ClusterSet.get_cluster i (ClusterSet.add_to_cluster x i cs)).1
           = Ok {| centroid := centroid c;
                   cluster_docs := cluster_docs c ++ [x] |}
        /\ (ClusterSet.cluster_size i (ClusterSet.add_to_cluster x i cs)).1
           = Ok (S (Cluster.size c)))
  /\ forall j, j <> i ->
       ClusterSet.get (ClusterSet.add_to_cluster x i cs) j
       = ClusterSet.get cs j.
Proof.
  unfold ClusterSet.size, ClusterSet.get. intros Hi.
  destruct (lookup_lt_is_Some_2 (clusters cs) i Hi) as [c Hc].
  unfold ClusterSet.add_to_cluster. rewrite Hc.
  split; [simpl; by rewrite length_insert |]. split.
  - exists c. split; [done |].
    unfold ClusterSet.get_cluster, ClusterSet.cluster_size. cbn [clusters].
    rewrite length_insert.
    destruct (Nat.leb_spec (length (clusters cs)) i) as [| _]; [lia |].
    rewrite list_lookup_insert_eq by done. split; [done |].
    simpl. unfold Cluster.size. simpl. rewrite length_app. simpl.
    f_equal. lia.
  - intros j Hne. simpl. by rewrite list_lookup_insert_ne.
Qed.

Lemma X17_add_to_cluster_witness :
  ClusterSet.size (ClusterSet.add_to_cluster Point.new 1 two_clusters)
  = ClusterSet.size two_clusters.
Proof.
  apply (X17_add_to_cluster Point.new 1 two_clusters). vm_compute. lia.
Defined.

(** X18: [ClusterSet::add_cluster(c)] puts [c] at the index that was the
    size: [get_cluster] returns it there, the size grows by one and the
    clusters at the lower indices are the same. *)
Theorem X18_add_cluster (c : Cluster) (cs : ClusterSet) :
  ClusterSet.size (ClusterSet.add_cluster c cs) = S (ClusterSet.size cs)
  /\ (ClusterSet.get_cluster (ClusterSet.size cs)
                             (ClusterSet.add_cluster c cs)).1 = Ok c
  /\ forall j, j < ClusterSet.size cs ->
       (ClusterSet.get_cluster j (ClusterSet.add_cluster c cs)).1
       = (ClusterSet.get_cluster j cs).1.
Proof.
  unfold ClusterSet.size, ClusterSet.add_cluster, ClusterSet.get_cluster.
  cbn [clusters]. rewrite length_app. cbn [length].
  split; [lia |]. split.
  - destruct (Nat.leb_spec (length (clusters cs) + 1) (length (clusters cs)));
      [lia |].
    by rewrite lookup_app_r, Nat.sub_diag by lia.
  - intros j Hj.
    destruct (Nat.leb_spec (length (clusters cs) + 1) j); [lia |].
    destruct (Nat.leb_spec (length (clusters cs)) j); [lia |].
    rewrite lookup_app_l by lia. by destruct (clusters cs !! j).
Qed.

Lemma X18_add_cluster_witness :
  (ClusterSet.get_cluster 0 (ClusterSet.add_cluster Cluster.new two_clusters)).1
  = (ClusterSet.get_cluster 0 two_clusters).1.
Proof.
  apply (X18_add_cluster Cluster.new two_clusters). vm_compute. lia.
Defined.

(** ** PointTermIterator: walking the termlist *)

Section IteratorWalk.

Import PointTermIterator.

Lemma nexts_S_r (n : nat) : forall it,
  nexts (S n) it
  = match nexts n it with
    | Ok it' => next it'
    | Throw e => Throw e
    end.
Proof.
  induction n as [| n IH]; intros it.
  - simpl. by destruct (next it).
  - change (nexts (S (S n)) it)
      with (match next it with
            | Ok it' => nexts (S n) it'
            | Throw e => Throw e
            end).
    cbn [nexts]. destruct (next it) as [it' | e]; [| done]. apply IH.
Qed.

(** After [k + 1] calls of [next] the iterator stands at entry [k]. *)
Lemma nexts_new (tl : list Wdf) (k : nat) :
  k <= length tl ->
  nexts (S k) (new tl)
  = Ok {| vec := tl; i := k; end_ := length tl; size := length tl;
          started := true |}.
Proof.
  induction k as [| k IH]; intros Hk; [done |].
  by rewrite nexts_S_r, IH by lia.
Qed.



End IteratorWalk.

(** X19: on a new iterator over a termlist of [n] entries, the first
    call of [next] starts the iterator at the first entry and each
    further call moves it on by one: after [k + 1] calls, [k <= n], the
    iterator yields the term and wdf of entry [k] and [at_end()] holds
    exactly when [k = n].  A call of [next] on the iterator at its end
    fails the assertion [i != end] in a build with assertions; in a build
    without them it returns, the position is past the end and [at_end()]
    is false again. *)
Theorem X19_iterator_walk (tl : list Wdf) (k : nat) :
  k <= length tl ->
  (exists it,
     nexts (S k) (PointTermIterator.new tl) = Ok it
     /\ PointTermIterator.get_termname it = term <$> tl !! k
     /\ PointTermIterator.get_wdf it = wdf <$> tl !! k
     /\ PointTermIterator.get_approx_size it = length tl
     /\ (PointTermIterator.at_end it = true <-> k = length tl))
  /\ (exists it_end,
        nexts (S (length tl)) (PointTermIterator.new tl) = Ok it_end
        /\ PointTermIterator.at_end it_end = true
        /\ PointTermIterator.next_with true it_end = Throw AssertionError
        /\ exists it_past,
             PointTermIterator.next it_end = Ok it_past
             /\ PointTermIterator.i it_past = S (length tl)
             /\ PointTermIterator.end_ it_past = length tl
             /\ PointTermIterator.at_end it_past = false).
Proof.
  intros Hk. split.
  - eexists. split; [by apply nexts_new |].
    unfold PointTermIterator.get_termname, PointTermIterator.get_wdf,
      PointTermIterator.get_approx_size, PointTermIterator.at_end. simpl.
    repeat split; try done.
    + by intros ->%Nat.eqb_eq.
    + intros ->. apply Nat.eqb_refl.
  - eexists. split; [by apply nexts_new |].
    unfold PointTermIterator.at_end, PointTermIterator.next,
      PointTermIterator.next_with. cbn -[Nat.eqb]. rewrite Nat.eqb_refl.
    split; [done |]. split; [done |].
    eexists. split; [done |]. cbn -[Nat.eqb].
    split; [done |]. split; [done |].
    apply Nat.eqb_neq. lia.
Qed.

Lemma X19_iterator_walk_witness :
  exists it,
    nexts 2 (PointTermIterator.new [mkWdf "a" 2; mkWdf "b" 1]) = Ok it
    /\ PointTermIterator.get_termname it = Some "b".
Proof.
  destruct (proj1 (X19_iterator_walk [mkWdf "a" 2; mkWdf "b" 1] 1
                     ltac:(simpl; lia)))
    as (it & Hit & Hterm & _).
  exists it. split; [exact Hit | exact Hterm].
Defined.



(** X21: [ClusterSet::recalculate_centroids] keeps the number of
    clusters and the points of every cluster, and a second call in a row
    changes nothing. *)
Theorem X21_recalculate_centroids (cs : ClusterSet) :
  ClusterSet.size (ClusterSet.recalculate_centroids cs) = ClusterSet.size cs
  /\ (forall i c,
        ClusterSet.get (ClusterSet.recalculate_centroids cs) i = Some c ->
        exists c0, ClusterSet.get cs i = Some c0
                   /\ cluster_docs c = cluster_docs c0)
  /\ ClusterSet.recalculate_centroids (ClusterSet.recalculate_centroids cs)
     = ClusterSet.recalculate_centroids cs.
Proof.
  unfold ClusterSet.size, ClusterSet.get, ClusterSet.recalculate_centroids.
  cbn [clusters]. split; [apply length_fmap |]. split.
  - intros i c Hc. rewrite list_lookup_fmap in Hc.
    destruct (clusters cs !! i) as [c0 |]; [| done].
    exists c0. split; [done |]. by injection Hc as <-.
  - f_equal. rewrite <- list_fmap_compose. apply list_fmap_ext.
    intros i c _. simpl.
    by rewrite (recalculate_eq (Cluster.recalculate c)), !recalculate_eq.
Qed.

Lemma X21_recalculate_centroids_witness :
  exists c0, ClusterSet.get two_clusters 0 = Some c0
             /\ cluster_docs (Cluster.recalculate c0) = cluster_docs c0.
Proof.
  destruct (proj1 (proj2 (X21_recalculate_centroids two_clusters)) 0
              (Cluster.recalculate
                 (Cluster.add_cluster Point.new
                    (Cluster.set_centroid unit_centroid Cluster.new)))
              eq_refl) as (c0 & H0 & Hdocs).
  exists c0. split; [exact H0 |].
  unfold ClusterSet.get in H0. simpl in H0. by injection H0 as <-.
Defined.

(** ** Cluster::recalculate: the centroid as the mean *)

Section Mean.

Lemma weight_pos (N wdf df : nat) :
  0 < wdf -> 0 < df -> df < N ->
  exists r, Point.weight N wdf df = DFin r /\ (0 < r)%R.
Proof.
  intros Hwdf Hdf HN. rewrite weight_finite by lia.
  eexists. split; [done |].
  pose proof (tf_pos wdf Hwdf) as Htf.
  assert (Hdf' : (0 < INR df)%R) by (by apply INR_pos).
  assert (Hlt : (INR df < INR N)%R) by (by apply lt_INR).
  assert (H1 : (1 < INR N / INR df)%R).
  { apply (Rmult_lt_reg_r (INR df)); [done |].
    unfold Rdiv. rewrite Rmult_assoc, Rinv_l by lra. lra. }
  assert (Hln : (0 < ln (INR N / INR df))%R).
  { rewrite <- ln_1. apply ln_increasing; lra. }
  by apply Rmult_lt_0_compat.
Qed.

Lemma initialize_loop_doccount (N : nat) (l : list (string * nat)) :
  forall (p : PointType) (g : TermListGroup),
    docs_num (foldl (Point.initialize_step N) (p, g) l).2 = docs_num g.
Proof.
  induction l as [| e l IH]; intros p g; [done |].
  cbn [foldl]. rewrite initialize_step_eq, IH.
  apply doccount_get_termfreq.
Qed.

(** [initialize] changes no answer of the term frequencies. *)
Lemma initialize_tlg (tlg : TermListGroup) (d : Document) (p : Point) :
  TermListGroup.get_doccount (Point.initialize tlg d p).2
  = TermListGroup.get_doccount tlg
  /\ forall t, TermListGroup.freq (Point.initialize tlg d p).2 t
               = TermListGroup.freq tlg t.
Proof.
  unfold Point.initialize, TermListGroup.get_doccount.
  pose proof (initialize_loop_doccount (docs_num tlg) (doc_terms d)
                (point_base p) tlg) as Hnum.
  destruct (initialize_loop (docs_num tlg) (doc_terms d) (point_base p) tlg)
    as (Hfreq & _).
  destruct (foldl _ (point_base p, tlg) (doc_terms d)) as [b g].
  split; [exact Hnum | exact Hfreq].
Qed.

Lemma contains_recalculated (n : Z) (cen : Centroid) (t : string) :
  PointType.contains (Centroid.recalc_magnitude (Centroid.divide n cen)) t
  = PointType.contains cen t.
Proof.
  unfold PointType.contains, Centroid.recalc_magnitude, Centroid.divide.
  cbn [values]. rewrite lookup_fmap. by destruct (values cen !! t).
Qed.

(** Dividing by a size that is not 0 divides the weight [get_value]
    answers, for a term without a weight too. *)
Lemma get_value_divide_size (n : nat) (cen : Centroid) (t : string) :
  0 < n ->
  PointType.get_value (Centroid.divide (Z.of_nat n) cen) t
  = PointType.get_value cen t /d Double.of_nat n.
Proof.
  intros Hn.
  assert (Hz : Double.zero /d Double.of_nat n = Double.zero).
  { unfold Double.zero, Double.of_nat.
    rewrite div_pos by (by apply INR_pos). f_equal.
    unfold Rdiv. by rewrite Rmult_0_l. }
  unfold PointType.get_value, Centroid.divide. cbn [values].
  rewrite lookup_fmap, of_int_of_nat.
  destruct (values cen !! t); [done |]. symmetry. exact Hz.
Qed.

End Mean.

(** The weight of "b" in the point of [doc_ab], on which [initialize] was
    called once or twice, is a positive real. *)
Lemma weight_b_pos :
  exists r,
    (0 < r)%R
    /\ PointType.get_value
         (point_base (point_of (tlg_of two_docs) doc_ab)) "b" = DFin r
    /\ PointType.get_value
         (point_base (point_twice (tlg_of two_docs) doc_ab)) "b" = DFin r.
Proof.
  destruct (tlg_of_freq two_docs "b" two_docs_NoDup) as [HN Hf].
  change (length two_docs) with 2 in HN.
  change (docs_with_term "b" two_docs) with 1 in Hf.
  destruct (weight_pos 2 3 1) as (r & Hr & Hpos); [lia | lia | lia |].
  exists r. split; [exact Hpos |]. split.
  - assert (Hnd : NoDup (doc_terms doc_ab).*1).
    { pose proof two_docs_NoDup as H. apply Forall_cons in H as [_ H].
      by apply Forall_cons in H as [H _]. }
    assert (Hin : ("b", 3) ∈ doc_terms doc_ab) by (right; left).
    pose proof (initialize_get_value (tlg_of two_docs) doc_ab Point.new
                  ("b", 3) Hnd Hin) as H.
    change (("b", 3).1) with "b" in H.
    change (Nat.max ("b", 3).2 1) with 3 in H.
    unfold point_of. by rewrite H, HN, Hf.
  - unfold point_twice. rewrite initialize_base.
    destruct (initialize_tlg (tlg_of two_docs) doc_ab Point.new) as [HN' Hf'].
    pose proof (initialize_loop_last
                  (TermListGroup.get_doccount
                     (Point.initialize (tlg_of two_docs) doc_ab Point.new).2)
                  (doc_terms doc_ab)
                  (point_base
                     (Point.initialize (tlg_of two_docs) doc_ab Point.new).1)
                  (Point.initialize (tlg_of two_docs) doc_ab Point.new).2
                  [("a", 1)] ("b", 3) [] eq_refl (not_elem_of_nil _)) as H.
    change (("b", 3).1) with "b" in H.
    rewrite (get_value_lookup _ _ _ H).
    unfold entry_weight.
    change (("b", 3).1) with "b". change (Nat.max ("b", 3).2 1) with 3.
    by rewrite HN', Hf', HN, Hf.
Qed.

Lemma point_twice_terms :
  PointType.terms (point_base (point_twice (tlg_of two_docs) doc_ab))
  = ["a"; "b"; "a"; "b"].
Proof.
  unfold point_twice. rewrite initialize_base.
  destruct (initialize_loop
              (TermListGroup.get_doccount
                 (Point.initialize (tlg_of two_docs) doc_ab Point.new).2)
              (doc_terms doc_ab)
              (point_base (Point.initialize (tlg_of two_docs) doc_ab
                                            Point.new).1)
              (Point.initialize (tlg_of two_docs) doc_ab Point.new).2)
    as (_ & Htl & _).
  unfold PointType.terms. rewrite Htl, fmap_app.
  change (term <$> termlist (point_base (Point.initialize (tlg_of two_docs)
                                           doc_ab Point.new).1))
    with (PointType.terms (point_base (point_of (tlg_of two_docs) doc_ab))).
  by rewrite point_of_terms.
Qed.

(** C4, as stated, fails: [recalculate] adds a point's weight for a term
    once for every entry the point's termlist has for it.  [initialize]
    appends to the termlist, so after two calls of it on one Point every
    term is listed twice, and for the cluster of that point the centroid's
    weight for "b" is [(w + w) / 1], not [w / 1], [w] being the point's
    weight for "b", which is not 0. *)
Lemma C4_mean_fails_for_doubled_termlist :
  0 < Cluster.size cluster_twice
  /\ PointType.contains
       (Cluster.get_centroid (Cluster.recalculate cluster_twice)) "b" = true
  /\ PointType.get_value
       (Cluster.get_centroid (Cluster.recalculate cluster_twice)) "b"
     <> sum_values "b" (cluster_docs cluster_twice)
        /d Double.of_nat (Cluster.size cluster_twice).
Proof.
  destruct weight_b_pos as (r & Hpos & _ & Hw).
  assert (Hc : PointType.contains
                 (Cluster.get_centroid (Cluster.recalculate cluster_twice))
                 "b" = true).
  { unfold Cluster.get_centroid. rewrite recalculate_centroid.
    rewrite contains_recalculated. apply contains_add_points. right.
    exists (point_twice (tlg_of two_docs) doc_ab). split; [by left |].
    rewrite point_twice_terms. right. left. }
  split; [change (0 < 1); lia |]. split; [exact Hc |].
  unfold Cluster.get_centroid in *. rewrite recalculate_centroid in *.
  change (PointType.get_value (Centroid.recalc_magnitude ?x) "b")
    with (PointType.get_value x "b").
  rewrite get_value_divide_size by (change (0 < 1); lia).
  unfold cluster_twice, Cluster.add_cluster, Cluster.size, sum_values.
  cbn [cluster_docs Cluster.new foldl length app].
  unfold Cluster.add_point_terms.
  rewrite (get_value_add_terms
             (PointType.get_value
                (point_base (point_twice (tlg_of two_docs) doc_ab)))).
  rewrite point_twice_terms, Hw.
  change (length (filter (fun t' => t' = "b") ["a"; "b"; "a"; "b"])) with 2.
  change (PointType.get_value PointType.new "b") with Double.zero.
  unfold Double.zero, Double.of_nat. cbn [Nat.iter nat_rect Double.add].
  rewrite !div_pos by (simpl; lra).
  apply DFin_ne. intros E. apply Rmult_eq_reg_r in E; [lra |].
  apply Rinv_neq_0_compat. simpl. lra.
Qed.

(** C4, amended: for every Cluster with [size() > 0] whose points each
    list every term they store exactly once in their termlist, after
    [recalculate()] the centroid contains exactly the terms of the
    termlists of the points; for every term [t], [centroid.get_value(t)] is
    the sum of [p.get_value(t)] over the points divided by the size; the
    magnitude is the sum of the squares of these weights; the points are
    as before. *)
Theorem C4_recalculate (c : Cluster) :
  0 < Cluster.size c ->
  Forall (fun p => keys_listed_once (point_base p)) (cluster_docs c) ->
  let cen := Cluster.get_centroid (Cluster.recalculate c) in
  (forall t, PointType.contains cen t = true
             <-> exists p, p ∈ cluster_docs c
                           /\ t ∈ PointType.terms (point_base p))
  /\ (forall t, PointType.get_value cen t
                = sum_values t (cluster_docs c)
                  /d Double.of_nat (Cluster.size c))
  /\ PointType.get_magnitude cen = PointType.sum_squares cen
  /\ cluster_docs (Cluster.recalculate c) = cluster_docs c.
Proof.
  intros Hsize Hps cen. subst cen. unfold Cluster.get_centroid.
  rewrite recalculate_centroid. split; [| split; [| split]].
  - intros t. rewrite contains_recalculated, contains_add_points.
    split; [| by right]. intros [H | H]; [| done].
    unfold PointType.contains in H. simpl in H.
    by rewrite lookup_empty in H.
  - intros t.
    change (PointType.get_value (Centroid.recalc_magnitude ?x) t)
      with (PointType.get_value x t).
    rewrite get_value_divide_size by done. f_equal.
    by rewrite get_value_add_points.
  - unfold PointType.get_magnitude.
    by rewrite recalc_magnitude_sum, sum_squares_recalc.
  - done.
Qed.

Lemma C4_recalculate_witness :
  0 < Cluster.size cluster_two_docs
  /\ PointType.contains
       (Cluster.get_centroid (Cluster.recalculate cluster_two_docs)) "b"
     = true
  /\ exists r,
       (0 < r)%R
       /\ PointType.get_value
            (Cluster.get_centroid (Cluster.recalculate cluster_two_docs)) "b"
          = DFin ((0 + 0 + r) / INR 2).
Proof.
  assert (Hsize : 0 < Cluster.size cluster_two_docs)
    by (change (0 < 2); lia).
  assert (Hps : Forall (fun p => keys_listed_once (point_base p))
                       (cluster_docs cluster_two_docs)).
  { pose proof two_docs_NoDup as H. apply Forall_cons in H as [Ha H].
    apply Forall_cons in H as [Hb _].
    repeat constructor; by apply initialize_keys_listed_once. }
  pose proof (C4_recalculate cluster_two_docs Hsize Hps) as (Hc & Hv & _).
  split; [exact Hsize |]. split.
  - apply Hc. exists (point_of (tlg_of two_docs) doc_ab).
    split; [right; left |]. rewrite point_of_terms. right. left.
  - destruct weight_b_pos as (r & Hpos & Hw & _).
    exists r. split; [exact Hpos |]. rewrite Hv.
    unfold sum_values, cluster_two_docs, Cluster.add_cluster, Cluster.size.
    cbn [cluster_docs Cluster.new foldl length app]. rewrite Hw.
    assert (Ha : PointType.get_value
                   (point_base (point_of (tlg_of two_docs) doc_a2)) "b"
                 = Double.zero).
    { apply get_value_absent.
      destruct (values (point_base (point_of (tlg_of two_docs) doc_a2))
                  !! "b") eqn:E; [| done].
      assert (Hin : "b" ∈ doc_term_names doc_a2).
      { apply (point_of_contains (tlg_of two_docs)).
        unfold PointType.contains. by rewrite E. }
      apply list_elem_of_singleton in Hin. discriminate Hin. }
    rewrite Ha. unfold Double.zero, Double.of_nat. cbn [Double.add].
    by rewrite div_pos by (simpl; lra).
Defined.
